(** * go-load-balancer: server pool, round-robin policy and admin handler

    A shallow embedding of
    - [internal/pool] (the second Go file of [src/internal/config/config.go]):
      [Backend], [ServerPool] and their methods;
    - [pkg/algorithm] (the last Go file of [src/load-balancer/main.go]):
      the round-robin policy [RoundRobin.NextServer];
    - [internal/admin] ([src/internal/admin/api.go]): [handleBackends];
    followed by the properties proved about them.

    Conventions.  Go's fixed-width integers are [Z] with the wrap-around
    written out ([wrap_int32], [wrap_uint64]).  A [*Backend] is an address
    into the pool's backend memory [mem], so that two slice entries holding
    the same pointer share one record.  [sync.RWMutex] sections are executed
    atomically; the interleaving of the lock-free [IncrementConnections] is
    modelled separately by a step function per thread. *)

From Stdlib Require Import ZArith Lia.
From stdpp Require Import base tactics option list strings gmap pretty.

#[local] Open Scope string_scope.
#[local] Open Scope list_scope.
#[local] Open Scope Z_scope.

(** ** Machine integers *)

Definition wrap_uint64 (z : Z) : Z := z mod 2 ^ 64.
Definition wrap_int32 (z : Z) : Z := (z + 2 ^ 31) mod 2 ^ 32 - 2 ^ 31.

Definition wrap_int64 (z : Z) : Z := (z + 2 ^ 63) mod 2 ^ 64 - 2 ^ 63.

Definition is_int32 (z : Z) : Prop := - 2 ^ 31 <= z < 2 ^ 31.
Definition is_uint64 (z : Z) : Prop := 0 <= z < 2 ^ 64.

(** ** Control flow helpers *)

(** [for i, x := range l { if f x { return i } }]: the index of the first
    element accepted by [f]. *)
Fixpoint range_find {A : Type} (f : A -> bool) (l : list A) : option nat :=
  match l with
  | [] => None
  | x :: l' => if f x then Some 0%nat else S <$> range_find f l'
  end.

(** ** The parts of Go's standard library the code calls *)

(** [net/url]: [url.Parse] and the [String] method of a URL.  The repository only parses
    strings and compares the printed forms, so both are kept abstract. *)
Class NetURL := {
  url_URL : Type;
  url_Parse : string -> option url_URL;
  URL_String : url_URL -> string;
}.

(** Go's [error] values produced by the embedded code. *)
Inductive error : Type :=
  | url_Error (input : string)      (* the error of a failed [url.Parse] *)
  | errors_New (msg : string).

Definition error_Error (e : error) : string :=
  match e with
  | url_Error input => String.append "parse " input
  | errors_New msg => msg
  end.

(** ** [internal/config] *)

Module config.

Record BackendConfig := mkBackendConfig {
  URL : string;
  Weight : Z;
  MaxConnections : Z;
}.

End config.

(** ** [pkg/algorithm] *)

Module algorithm.

Record Server := mkServer {
  URL : string;
  Weight : Z;
  CurrentWeight : Z;
  ConnectionCount : Z;
  MaxConnections : Z;
  Alive : bool;
}.

(** The [ServerPool] interface consumed by the policies.  The two laws
    say that the cursor is a cell of its own: it reads back what was
    stored, and storing it leaves the backend list alone. *)
Class ServerPool (P : Type) := {
  GetBackends : P -> list Server;
  GetCurrentIndex : P -> Z;
  SetCurrentIndex : Z -> P -> P;
  GetCurrentIndex_Set : forall idx p, GetCurrentIndex (SetCurrentIndex idx p) = idx;
  GetBackends_Set : forall idx p, GetBackends (SetCurrentIndex idx p) = GetBackends p;
}.

(** A [*Server] taken from a snapshot: its position in the snapshot and
    the struct it points to. *)
Definition ServerRef : Type := nat * Server.

Section RoundRobin.
(** The method [CanAcceptConnection] of [Server] is not part of the sources at hand;
    it is a parameter of the policy. *)
Variable CanAcceptConnection : Server -> bool.
Context {P : Type} `{ServerPool P}.

(** The scan [for i := uint64(0); i < l; i++ { ... }] of [NextServer];
    [n] is the number of iterations left. *)
Fixpoint NextServer_scan (servers : list Server) (idx l i : Z) (n : nat)
  : option ServerRef :=
  match n with
  | O => None
  | S n' =>
      let serverIdx := wrap_uint64 (idx + i) mod l in
      match servers !! Z.to_nat serverIdx with
      | Some server =>
          if Alive server && CanAcceptConnection server
          then Some (Z.to_nat serverIdx, server)
          else NextServer_scan servers idx l (wrap_uint64 (i + 1)) n'
      | None => None
      end
  end.

Definition NextServer (pool : P) : option ServerRef * P :=
  let servers := GetBackends pool in
  if (length servers =? 0)%nat then (None, pool)
  else
    let currentIdx := GetCurrentIndex pool in
    let next := wrap_uint64 (currentIdx + 1) in
    let pool := SetCurrentIndex next pool in
    let l := Z.of_nat (length servers) in
    let idx := next mod l in
    (NextServer_scan servers idx l 0 (length servers), pool).

(** [n] consecutive calls; the selections in call order. *)
Fixpoint NextServer_calls (n : nat) (pool : P) : list (option ServerRef) * P :=
  match n with
  | O => ([], pool)
  | S n' =>
      let '(r, pool) := NextServer pool in
      let '(rs, pool) := NextServer_calls n' pool in
      (r :: rs, pool)
  end.
End RoundRobin.

End algorithm.

(** ** [internal/pool] *)

Module pool.

Section Pool.
Context `{NetURL}.

(** A [*httputil.ReverseProxy]: the upstream it forwards to, and whether
    [AddBackend] installed its [ErrorHandler] closure on it
    ([UpdateBackends] builds proxies with the library's default one). *)
Record ReverseProxy_t := mkReverseProxy {
  Target : url_URL;
  ErrorHandlerSet : bool;
}.

Record Backend := mkBackend {
  URL : url_URL;
  Host : string;
  Alive : bool;
  Weight : Z;
  CurrentWeight : Z;
  ReverseProxy : ReverseProxy_t;
  ConnectionCount : Z;   (* int32 *)
  MaxConnections : Z;    (* int32 *)
}.

Definition with_Alive (a : bool) (b : Backend) : Backend :=
  mkBackend (URL b) (Host b) a (Weight b) (CurrentWeight b)
            (ReverseProxy b) (ConnectionCount b) (MaxConnections b).

Definition with_Weight (w : Z) (b : Backend) : Backend :=
  mkBackend (URL b) (Host b) (Alive b) w (CurrentWeight b)
            (ReverseProxy b) (ConnectionCount b) (MaxConnections b).

Definition with_ConnectionCount (c : Z) (b : Backend) : Backend :=
  mkBackend (URL b) (Host b) (Alive b) (Weight b) (CurrentWeight b)
            (ReverseProxy b) c (MaxConnections b).

(** [mem] holds every [Backend] allocated so far; a [*Backend] is an
    index into it.  [backends] is the slice [[]*Backend]. *)
Record ServerPool := mkServerPool {
  mem : list Backend;
  backends : list nat;
  current : Z;           (* uint64 *)
  algorithm : string;
  maxConnections : Z;    (* int32 *)
}.

Definition with_mem (m : list Backend) (s : ServerPool) : ServerPool :=
  mkServerPool m (backends s) (current s) (algorithm s) (maxConnections s).

Definition with_backends (bs : list nat) (s : ServerPool) : ServerPool :=
  mkServerPool (mem s) bs (current s) (algorithm s) (maxConnections s).

Definition with_current (c : Z) (s : ServerPool) : ServerPool :=
  mkServerPool (mem s) (backends s) c (algorithm s) (maxConnections s).

(** *** [sync/atomic] on the [ConnectionCount] cell *)

Definition atomic_LoadInt32 (b : Backend) : Z := ConnectionCount b.

Definition atomic_AddInt32 (delta : Z) (b : Backend) : Z * Backend :=
  let new := wrap_int32 (ConnectionCount b + delta) in
  (new, with_ConnectionCount new b).

Definition atomic_CompareAndSwapInt32 (old new : Z) (b : Backend) : bool * Backend :=
  if ConnectionCount b =? old then (true, with_ConnectionCount new b)
  else (false, b).

(** *** Methods of [Backend] *)

Definition IsAlive (b : Backend) : bool := Alive b.

(** The [for { ... }] loop of [IncrementConnections]; [fuel] bounds the
    number of iterations, [None] means the bound was reached. *)
Fixpoint IncrementConnections (fuel : nat) (b : Backend) : option (bool * Backend) :=
  match fuel with
  | O => None
  | S fuel' =>
      let current := atomic_LoadInt32 b in
      if current >=? MaxConnections b then Some (false, b)
      else
        let '(swapped, b) := atomic_CompareAndSwapInt32 current (wrap_int32 (current + 1)) b in
        if swapped then Some (true, b)
        else IncrementConnections fuel' b
  end.

Definition DecrementConnections (b : Backend) : Backend :=
  snd (atomic_AddInt32 (-1) b).

(** *** [IncrementConnections] under interleaving

    Each caller is at one of the atomic operations of the loop, or has
    returned.  A step of a caller executes its next atomic operation on
    the shared record, together with the local code that follows it. *)
Inductive IncrementPC : Type :=
  | AtLoad
  | AtCompareAndSwap (current : Z)
  | Returned (result : bool).

Definition Increment_step (pc : IncrementPC) (b : Backend) : IncrementPC * Backend :=
  match pc with
  | AtLoad =>
      let current := atomic_LoadInt32 b in
      if current >=? MaxConnections b then (Returned false, b)
      else (AtCompareAndSwap current, b)
  | AtCompareAndSwap current =>
      let '(swapped, b) := atomic_CompareAndSwapInt32 current (wrap_int32 (current + 1)) b in
      if swapped then (Returned true, b) else (AtLoad, b)
  | Returned r => (Returned r, b)
  end.

(** [k] steps of one caller with nobody else moving. *)
Fixpoint Increment_alone (k : nat) (pc : IncrementPC) (b : Backend)
  : IncrementPC * Backend :=
  match k with
  | O => (pc, b)
  | S k' => let '(pc', b') := Increment_step pc b in Increment_alone k' pc' b'
  end.

Record Callers := mkCallers {
  callers : list IncrementPC;
  shared : Backend;
}.

(** Caller [i] takes its next step. *)
Definition Callers_step (i : nat) (σ : Callers) : Callers :=
  match callers σ !! i with
  | Some pc =>
      let '(pc', b) := Increment_step pc (shared σ) in
      mkCallers (<[i := pc']> (callers σ)) b
  | None => σ
  end.

(** A schedule names the caller that moves at each instant. *)
Definition Callers_run (schedule : list nat) (σ : Callers) : Callers :=
  foldl (fun σ i => Callers_step i σ) σ schedule.

(** [n] callers, all about to enter the loop. *)
Definition Callers_init (n : nat) (b : Backend) : Callers :=
  mkCallers (replicate n AtLoad) b.

(** *** Methods of [ServerPool] *)

Definition NewServerPool : ServerPool :=
  mkServerPool [] [] 0 "round-robin" 1000.

Definition GetMaxConnections (s : ServerPool) : Z := maxConnections s.
Definition SetMaxConnections (maxConns : Z) (s : ServerPool) : ServerPool :=
  mkServerPool (mem s) (backends s) (current s) (algorithm s) maxConns.

Definition GetCurrentIndex (s : ServerPool) : Z := current s.
Definition SetCurrentIndex (idx : Z) (s : ServerPool) : ServerPool :=
  with_current idx s.

(** Does the backend at address [p] print the URL [u]? *)
Definition url_is (s : ServerPool) (u : string) (p : nat) : bool :=
  match mem s !! p with
  | Some b => String.eqb (URL_String (URL b)) u
  | None => false
  end.

Definition AddBackend (cfg : config.BackendConfig) (s : ServerPool)
  : option error * ServerPool :=
  match url_Parse (config.URL cfg) with
  | None => (Some (url_Error (config.URL cfg)), s)
  | Some url =>
      let maxConnections' :=
        if config.MaxConnections cfg =? 0 then GetMaxConnections s
        else config.MaxConnections cfg in
      let backend :=
        mkBackend url "" true (config.Weight cfg) 0
                  (mkReverseProxy url true) 0 maxConnections' in
      (None, mkServerPool (mem s ++ [backend])
                          (backends s ++ [length (mem s)])
                          (current s) (algorithm s) (maxConnections s))
  end.

Definition RemoveBackend (backendURL : string) (s : ServerPool)
  : option error * ServerPool :=
  match url_Parse backendURL with
  | None => (Some (url_Error backendURL), s)
  | Some url =>
      match range_find (url_is s (URL_String url)) (backends s) with
      | Some i =>
          (None, with_backends (take i (backends s) ++ drop (S i) (backends s)) s)
      | None => (Some (errors_New "backend not found"), s)
      end
  end.

Definition GetNextPeer (s : ServerPool) : option nat * ServerPool :=
  let next := wrap_uint64 (current s + 1) in
  let s := with_current next s in
  let l := length (backends s) in
  if (l =? 0)%nat then (None, s)
  else (backends s !! Z.to_nat (next mod Z.of_nat l), s).

Definition MarkBackendStatus (backendUrl : url_URL) (alive : bool) (s : ServerPool)
  : ServerPool :=
  match range_find (url_is s (URL_String backendUrl)) (backends s) with
  | Some i =>
      match backends s !! i with
      | Some p => with_mem (alter (with_Alive alive) p (mem s)) s
      | None => s
      end
  | None => s
  end.

Definition GetBackends (s : ServerPool) : list algorithm.Server :=
  omap (fun p =>
          b ← mem s !! p;
          Some (algorithm.mkServer (URL_String (URL b)) (Weight b) (CurrentWeight b)
                                   (ConnectionCount b) (MaxConnections b) (Alive b)))
       (backends s).

(** The inner loop of [UpdateBackends], also the loop of
    [GetBackendByURL]: the first backend of the slice printing [u]. *)
Definition find_backend (s : ServerPool) (u : string) : option nat :=
  i ← range_find (url_is s u) (backends s);
  backends s !! i.

Definition GetBackendByURL (url : string) (s : ServerPool) : option nat :=
  find_backend s url.

(** The body of the loop over [configs] in [UpdateBackends], on the
    memory [m] and the slice [newBackends] built so far. *)
Definition UpdateBackends_body (s : ServerPool) (cfg : config.BackendConfig)
           (m : list Backend) (newBackends : list nat)
  : error + (list Backend * list nat) :=
  match url_Parse (config.URL cfg) with
  | None => inl (url_Error (config.URL cfg))
  | Some url =>
      match find_backend (with_mem m s) (URL_String url) with
      | Some existing =>
          inr (alter (with_Weight (config.Weight cfg)) existing m,
               newBackends ++ [existing])
      | None =>
          let backend :=
            mkBackend url "" true (config.Weight cfg) 0
                      (mkReverseProxy url false) 0 0 in
          inr (m ++ [backend], newBackends ++ [length m])
      end
  end.

Fixpoint UpdateBackends_loop (s : ServerPool) (configs : list config.BackendConfig)
         (m : list Backend) (newBackends : list nat)
  : option error * list Backend * list nat :=
  match configs with
  | [] => (None, m, newBackends)
  | cfg :: configs' =>
      match UpdateBackends_body s cfg m newBackends with
      | inl err => (Some err, m, newBackends)
      | inr (m', newBackends') => UpdateBackends_loop s configs' m' newBackends'
      end
  end.

Definition UpdateBackends (configs : list config.BackendConfig) (s : ServerPool)
  : option error * ServerPool :=
  match UpdateBackends_loop s configs (mem s) [] with
  | (Some err, m, _) => (Some err, with_mem m s)
  | (None, m, newBackends) => (None, with_backends newBackends (with_mem m s))
  end.

Definition GetNextProxy (s : ServerPool) : option ReverseProxy_t * ServerPool :=
  match GetNextPeer s with
  | (Some backend, s) =>
      match mem s !! backend with
      | Some b =>
          (Some (ReverseProxy b),
           with_mem (<[backend := snd (atomic_AddInt32 1 b)]> (mem s)) s)
      | None => (None, s)
      end
  | (None, s) => (None, s)
  end.

(** *** Sequences of connection-count operations

    The operations that write a [ConnectionCount]: the two methods of a
    backend, named by its address, and [GetNextProxy] on the pool. *)
Inductive Op : Type :=
  | OpIncrementConnections (backend : nat)
  | OpDecrementConnections (backend : nat)
  | OpGetNextProxy.

Definition Op_exec (fuel : nat) (op : Op) (s : ServerPool) : option ServerPool :=
  match op with
  | OpIncrementConnections p =>
      match mem s !! p with
      | Some b =>
          '(_, b') ← IncrementConnections fuel b;
          Some (with_mem (<[p := b']> (mem s)) s)
      | None => Some s
      end
  | OpDecrementConnections p =>
      Some (with_mem (alter DecrementConnections p (mem s)) s)
  | OpGetNextProxy => Some (snd (GetNextProxy s))
  end.

Fixpoint Ops_exec (fuel : nat) (ops : list Op) (s : ServerPool) : option ServerPool :=
  match ops with
  | [] => Some s
  | op :: ops' => s' ← Op_exec fuel op s; Ops_exec fuel ops' s'
  end.

(** Every [OpDecrementConnections] of the sequence finds a positive
    count, as is the case when it gives back a slot acquired earlier. *)
Fixpoint Ops_released (fuel : nat) (ops : list Op) (s : ServerPool) : bool :=
  match ops with
  | [] => true
  | op :: ops' =>
      match op with
      | OpDecrementConnections p =>
          match mem s !! p with
          | Some b => 0 <? ConnectionCount b
          | None => true
          end
      | _ => true
      end
      && match Op_exec fuel op s with
         | Some s' => Ops_released fuel ops' s'
         | None => true
         end
  end.

Definition Op_is_GetNextProxy (op : Op) : bool :=
  match op with OpGetNextProxy => true | _ => false end.

(** *** The [ErrorHandler] closure installed by [AddBackend] *)

(** What the handler reads of a [*http.Request]: whether its context is
    done, and the [int] stored under [RetryKey], if any. *)
Record Request := mkRequest {
  Context_Done : bool;
  Context_RetryKey : option Z;
}.

Definition GetRetryFromContext (r : Request) : Z :=
  match Context_RetryKey r with
  | Some retry => retry
  | None => 0
  end.

(** What reaches the [http.ResponseWriter]. *)
Inductive Written : Type :=
  | http_Error (msg : string) (code : Z)
  | WriteHeader (code : Z)
  | UpstreamResponse (from : url_URL).

(** The state of one exchange: the pool, the writes to the client and
    the upstreams the request was sent to, oldest first. *)
Record Exchange := mkExchange {
  Pool : ServerPool;
  Writes : list Written;
  Forwards : list url_URL;
}.

Section Forwarding.
(** The network: does the [n]-th forward of the exchange, to the given
    upstream, get a response ([true]) or a transport error? *)
Variable RoundTrip : nat -> url_URL -> bool.

(** The closure, for the captured [url]; [serve] is [proxy.ServeHTTP]. *)
Definition ErrorHandler
           (serve : ReverseProxy_t -> Request -> Exchange -> option Exchange)
           (url : url_URL) (r : Request) (x : Exchange) : option Exchange :=
  let x := mkExchange (MarkBackendStatus url false (Pool x)) (Writes x) (Forwards x) in
  let retries := GetRetryFromContext r in
  if retries <? 3 then
    if Context_Done r then Some x
    else
      match GetNextProxy (Pool x) with
      | (Some proxy, s) => serve proxy r (mkExchange s (Writes x) (Forwards x))
      | (None, s) =>
          Some (mkExchange s
                  (Writes x ++ [http_Error "No proxy server available right now" 503])
                  (Forwards x))
      end
  else Some x.

(** [ServeHTTP] of [httputil.ReverseProxy]: one forward to the target;
    on a transport error the proxy's error handler runs, which for a
    proxy without one writes 502.  [fuel] bounds the depth of the
    recursion through [ErrorHandler]. *)
Fixpoint ServeHTTP (fuel : nat) (proxy : ReverseProxy_t) (r : Request) (x : Exchange)
  : option Exchange :=
  match fuel with
  | O => None
  | S fuel' =>
      let n := length (Forwards x) in
      let x := mkExchange (Pool x) (Writes x) (Forwards x ++ [Target proxy]) in
      if RoundTrip n (Target proxy)
      then Some (mkExchange (Pool x) (Writes x ++ [UpstreamResponse (Target proxy)])
                            (Forwards x))
      else if ErrorHandlerSet proxy
      then ErrorHandler (ServeHTTP fuel') (Target proxy) r x
      else Some (mkExchange (Pool x) (Writes x ++ [WriteHeader 502]) (Forwards x))
  end.
End Forwarding.

(** *** The remaining methods of [Backend] and [ServerPool] *)

Definition with_CurrentWeight (w : Z) (b : Backend) : Backend :=
  mkBackend (URL b) (Host b) (Alive b) (Weight b) w
            (ReverseProxy b) (ConnectionCount b) (MaxConnections b).

Definition GetURL (b : Backend) : string := URL_String (URL b).
Definition GetWeight (b : Backend) : Z := Weight b.
Definition GetCurrentWeight (b : Backend) : Z := CurrentWeight b.
Definition SetCurrentWeight (weight : Z) (b : Backend) : Backend :=
  with_CurrentWeight weight b.
Definition GetConnectionCount (b : Backend) : Z := atomic_LoadInt32 b.

Record PoolConfig := mkPoolConfig {
  Algorithm : string;
  MaxConns : Z;          (* int32 *)
}.

(** The field [algorithm] holds the name an algorithm was created from;
    [algorithm.CreateAlgorithm] is not part of the sources at hand. *)
Definition UpdateConfig (update : PoolConfig) (s : ServerPool) : ServerPool :=
  let s :=
    if MaxConns update =? 0 then s
    else mkServerPool (mem s) (backends s) (current s) (algorithm s) (MaxConns update) in
  if String.eqb (Algorithm update) "" then s
  else mkServerPool (mem s) (backends s) (current s) (Algorithm update) (maxConnections s).

(** [n] consecutive calls of [GetNextPeer]; the backends in call order. *)
Fixpoint GetNextPeer_calls (n : nat) (s : ServerPool) : list (option nat) * ServerPool :=
  match n with
  | O => ([], s)
  | S n' =>
      let '(r, s) := GetNextPeer s in
      let '(rs, s) := GetNextPeer_calls n' s in
      (r :: rs, s)
  end.

(** [n] consecutive calls of [IncrementConnections] on one backend; the
    results in call order. *)
Fixpoint IncrementConnections_calls (fuel n : nat) (b : Backend)
  : option (list bool * Backend) :=
  match n with
  | O => Some ([], b)
  | S n' =>
      '(r, b) ← IncrementConnections fuel b;
      '(rs, b) ← IncrementConnections_calls fuel n' b;
      Some (r :: rs, b)
  end.

(** The pool implements the interface of the policies. *)
#[global] Instance ServerPool_algorithm : algorithm.ServerPool ServerPool := {|
  algorithm.GetBackends := GetBackends;
  algorithm.GetCurrentIndex := GetCurrentIndex;
  algorithm.SetCurrentIndex := SetCurrentIndex;
  algorithm.GetCurrentIndex_Set := fun _ _ => eq_refl;
  algorithm.GetBackends_Set := fun _ _ => eq_refl;
|}.
End Pool.

End pool.

(** ** [internal/service] *)

Module service.

Section Service.
Context `{NetURL}.

Record LocationInfo := mkLocationInfo {
  Path : string;
  ServerPool : pool.ServerPool;
}.

Record ServiceInfo := mkServiceInfo {
  Name : string;
  Locations : list LocationInfo;
}.

(** Modelled from the spec: the service manager ([service.Manager]) is
    not part of the sources at hand.  The spec describes the registry as
    "a mapping from service name to service", and services hold "an
    ordered list of locations". *)
Definition Manager : Type := list ServiceInfo.

(** Modelled from the spec: [GetServiceByName], the lookup in that
    mapping; the position stands for the [*ServiceInfo] returned. *)
Definition GetServiceByName (m : Manager) (name : string) : option (nat * ServiceInfo) :=
  i ← range_find (fun srvc => String.eqb (Name srvc) name) m;
  srvc ← m !! i;
  Some (i, srvc).

(** Modelled from the spec: [GetServices], the services of the registry. *)
Definition GetServices (m : Manager) : list ServiceInfo := m.

(** The write [location.ServerPool = s] seen through the manager, for
    the location at position [j] of the service at position [i]. *)
Definition store_pool (i j : nat) (s : pool.ServerPool) (m : Manager) : Manager :=
  alter (fun srvc =>
           mkServiceInfo (Name srvc)
             (alter (fun loc => mkLocationInfo (Path loc) s) j (Locations srvc)))
        i m.
End Service.

End service.

(** ** [internal/admin] *)

Module admin.

Section Admin.
Context `{NetURL}.

(** [encoding/json]: decoding the request body into a
    [config.BackendConfig], and into the [struct { URL string }] of the
    DELETE branch. *)
Variable json_Decode_BackendConfig : string -> error + config.BackendConfig.
Variable json_Decode_URL : string -> error + string.

Record Request := mkRequest {
  Method : string;
  Query_Get : string -> string;    (* r.URL.Query().Get *)
  Body : string;
}.

(** What reaches the [http.ResponseWriter]. *)
Inductive Written : Type :=
  | http_Error (msg : string) (code : Z)
  | WriteHeader (code : Z)
  | json_Encode (servers : list algorithm.Server).

(** The calls made on the server pool of the chosen location. *)
Inductive PoolCall : Type :=
  | CallGetBackends
  | CallAddBackend (cfg : config.BackendConfig)
  | CallRemoveBackend (url : string).

Record Outcome := mkOutcome {
  Manager' : service.Manager;
  Writes : list Written;
  Calls : list PoolCall;
}.

Definition http_MethodGet : string := "GET".
Definition http_MethodPost : string := "POST".
Definition http_MethodDelete : string := "DELETE".

(** The [switch r.Method] of [handleBackends], for the location at
    position [j] of the service at position [i]. *)
Definition handleBackends_switch (a : service.Manager) (i j : nat)
           (location : service.LocationInfo) (r : Request) : Outcome :=
  if String.eqb (Method r) http_MethodGet then
    let backends := pool.GetBackends (service.ServerPool location) in
    mkOutcome a [json_Encode backends] [CallGetBackends]
  else if String.eqb (Method r) http_MethodPost then
    match json_Decode_BackendConfig (Body r) with
    | inl err => mkOutcome a [http_Error (error_Error err) 400] []
    | inr backend =>
        match pool.AddBackend backend (service.ServerPool location) with
        | (Some err, s) =>
            mkOutcome (service.store_pool i j s a)
                      [http_Error (error_Error err) 500] [CallAddBackend backend]
        | (None, s) =>
            mkOutcome (service.store_pool i j s a)
                      [WriteHeader 201] [CallAddBackend backend]
        end
    end
  else if String.eqb (Method r) http_MethodDelete then
    match json_Decode_URL (Body r) with
    | inl err => mkOutcome a [http_Error (error_Error err) 400] []
    | inr url =>
        match pool.RemoveBackend url (service.ServerPool location) with
        | (Some err, s) =>
            mkOutcome (service.store_pool i j s a)
                      [http_Error (error_Error err) 500] [CallRemoveBackend url]
        | (None, s) =>
            mkOutcome (service.store_pool i j s a)
                      [WriteHeader 204] [CallRemoveBackend url]
        end
    end
  else mkOutcome a [http_Error "Method not allowed" 405] [].

Definition handleBackends (a : service.Manager) (r : Request) : Outcome :=
  let serviceName := Query_Get r "service_name" in
  let serviceLocation := Query_Get r "path" in
  if String.eqb serviceName "" then
    mkOutcome a [http_Error "service_name is required" 400] []
  else
    match service.GetServiceByName a serviceName with
    | None => mkOutcome a [http_Error "Service not found" 404] []
    | Some (i, srvc) =>
        let location :=
          range_find (fun loc => String.eqb (service.Path loc) serviceLocation)
                     (service.Locations srvc) in
        if bool_decide (location = None) && String.eqb serviceLocation "" then
          if (length (service.Locations srvc) =? 1)%nat then
            match service.Locations srvc !! 0%nat with
            | Some location => handleBackends_switch a i 0 location r
            | None => mkOutcome a [] []
            end
          else
            mkOutcome a
              [http_Error "location parameter is required for services with multiple locations" 400]
              []
        else mkOutcome a [http_Error "Location not found" 404] []
    end.

(** *** The handlers of health and statistics *)

(** The entry of [stats] for a service. *)
Record Stats := mkStats {
  total_backends : Z;
  active_backends : Z;
  total_connections : Z;
}.

(** The entry of a backend in the health report of a service. *)
Record Health := mkHealth {
  alive : bool;
  connections : Z;       (* int32 *)
}.

(** What these handlers write: an error, or the JSON encoding of a map,
    which is determined by the map. *)
Inductive Report : Type :=
  | report_Error (msg : string) (code : Z)
  | report_Stats (stats : gmap string Stats)
  | report_Health (healthStatus : gmap string (gmap string Health)).

(** The loop over [backends] of [handleStats]: [totalConnections] and
    [activeBackends], both [int]. *)
Definition handleStats_backends (backends : list algorithm.Server) : Z * Z :=
  foldl (fun '(totalConnections, activeBackends) backend =>
           let activeBackends :=
             if algorithm.Alive backend then wrap_int64 (activeBackends + 1)
             else activeBackends in
           (wrap_int64 (totalConnections + algorithm.ConnectionCount backend),
            activeBackends))
        (0, 0) backends.

(** The body of the loop over the locations of the service [name]. *)
Definition handleStats_location (name : string) (stats : gmap string Stats)
           (loc : service.LocationInfo) : gmap string Stats :=
  let backends := pool.GetBackends (service.ServerPool loc) in
  let '(totalConnections, activeBackends) := handleStats_backends backends in
  <[name := mkStats (Z.of_nat (length backends)) activeBackends totalConnections]> stats.

Definition handleStats (a : service.Manager) (r : Request) : list Report :=
  if negb (String.eqb (Method r) http_MethodGet) then
    [report_Error "Method not allowed" 405]
  else
    let services := service.GetServices a in
    let stats :=
      foldl (fun stats srvc =>
               foldl (handleStats_location (service.Name srvc)) stats
                     (service.Locations srvc))
            ∅ services in
    [report_Stats stats].

(** The loop over [backends] of [handleHealth]. *)
Definition handleHealth_backends (backends : list algorithm.Server) : gmap string Health :=
  foldl (fun serviceHealth backend =>
           <[algorithm.URL backend :=
               mkHealth (algorithm.Alive backend) (algorithm.ConnectionCount backend)]>
             serviceHealth)
        ∅ backends.

Definition handleHealth_location (name : string)
           (healthStatus : gmap string (gmap string Health))
           (loc : service.LocationInfo) : gmap string (gmap string Health) :=
  let backends := pool.GetBackends (service.ServerPool loc) in
  <[name := handleHealth_backends backends]> healthStatus.

Definition handleHealth (a : service.Manager) (r : Request) : list Report :=
  if negb (String.eqb (Method r) http_MethodGet) then
    [report_Error "Method not allowed" 405]
  else
    let services := service.GetServices a in
    let healthStatus :=
      foldl (fun healthStatus srvc =>
               foldl (handleHealth_location (service.Name srvc)) healthStatus
                     (service.Locations srvc))
            ∅ services in
    [report_Health healthStatus].
End Admin.

End admin.

(** ** [internal/middleware]: the security headers *)

Module middleware.

Record ServerSecurity := mkServerSecurity {
  HSTS : bool;
  HSTSMaxAge : Z;
  HSTSIncludeSubDomains : bool;
  HSTSPreload : bool;
  FrameOptions : string;
  ContentTypeOptions : bool;
  XSSProtection : bool;
}.

Section Security.
(** [net/textproto]: the canonical form of a header name, under which
    [http.Header] stores it. *)
Variable CanonicalMIMEHeaderKey : string -> string.

(** An [http.Header]. *)
Definition Header : Type := gmap string (list string).

(** [h.Set(key, value)] *)
Definition Header_Set (key value : string) (h : Header) : Header :=
  <[CanonicalMIMEHeaderKey key := [value]]> h.

(** The value of the HSTS header; [fmt.Sprintf] with [%d] prints the decimal
    numeral, as [pretty] does. *)
Definition hsts_value (s : ServerSecurity) : string :=
  let value := String.append "max-age=" (pretty (HSTSMaxAge s)) in
  let value :=
    if HSTSIncludeSubDomains s then String.append value "; includeSubDomains"
    else value in
  if HSTSPreload s then String.append value "; preload" else value.

(** The writes of [Middleware] to [w.Header()], before it calls [next]. *)
Definition Middleware_headers (s : ServerSecurity) (h : Header) : Header :=
  let h := if HSTS s then Header_Set "Strict-Transport-Security" (hsts_value s) h else h in
  let h :=
    if negb (String.eqb (FrameOptions s) "")
    then Header_Set "X-Frame-Options" (FrameOptions s) h else h in
  let h :=
    if ContentTypeOptions s then Header_Set "X-Content-Type-Options" "nosniff" h else h in
  if XSSProtection s then Header_Set "X-XSS-Protection" "1; mode=block" h else h.

(** A response writer is its header and the rest of its state; a handler
    transforms it, given the request. *)
Definition Middleware {W Rq : Type} (s : ServerSecurity)
           (next : Header * W -> Rq -> Header * W) (w : Header * W) (r : Rq) : Header * W :=
  next (Middleware_headers s (fst w), snd w) r.
End Security.

End middleware.

(** ** Concrete pools used to exercise the definitions *)

Module Examples.

(** URLs already in the form [url.Parse] and [String] leave alone, such as
    ["http://b1:8080"]: parsing succeeds and printing gives the input. *)
Definition plain_url : NetURL :=
  {| url_URL := string; url_Parse := Some; URL_String := fun u => u |}.
#[local] Existing Instance plain_url.

(** Modelled from the spec: [CanAcceptConnection] of [algorithm.Server] is
    not part of the sources at hand; "capacity-available" is read as the
    connection count being below [max_connections]. *)
Definition CanAcceptConnection (server : algorithm.Server) : bool :=
  algorithm.ConnectionCount server <? algorithm.MaxConnections server.

(** A backend as [AddBackend] creates it, with the given state. *)
Definition backend (url : string) (alive : bool) (weight count max : Z) : pool.Backend :=
  pool.mkBackend url "" alive weight 0 (pool.mkReverseProxy url true) count max.

Definition pool_of (bs : list pool.Backend) (cursor : Z) : pool.ServerPool :=
  pool.mkServerPool bs (seq 0 (length bs)) cursor "round-robin" 1000.

Definition b1 : string := "http://b1:8080".
Definition b2 : string := "http://b2:8080".
Definition b3 : string := "http://b3:8080".

(** One backend, idle, with room for one connection. *)
Definition idle_pool : pool.ServerPool := pool_of [backend b1 true 1 0 1] 0.
(** One backend holding its only slot. *)
Definition full_pool : pool.ServerPool := pool_of [backend b1 true 1 1 1] 0.
(** One backend marked not alive. *)
Definition dead_pool : pool.ServerPool := pool_of [backend b1 false 1 0 1] 0.
(** Three idle backends. *)
Definition three_pool (cursor : Z) : pool.ServerPool :=
  pool_of [backend b1 true 1 0 10; backend b2 true 1 0 10; backend b3 true 1 0 10] cursor.

(** The connection count and the limit of every backend in memory. *)
Definition counts (s : pool.ServerPool) : list (Z * Z) :=
  (fun b => (pool.ConnectionCount b, pool.MaxConnections b)) <$> pool.mem s.

(** The service [backend-api] of [config.yaml], with its one location. *)
Definition manager : service.Manager :=
  [service.mkServiceInfo "backend-api"
     [service.mkLocationInfo "/api/" (three_pool 0)]].

Definition query (service_name path : string) (key : string) : string :=
  if String.eqb key "service_name" then service_name
  else if String.eqb key "path" then path
  else "".

(** [GET /api/backends?service_name=backend-api&path=/api/] *)
Definition get_api_backends : admin.Request :=
  admin.mkRequest "GET" (query "backend-api" "/api/") "".

(** The proxy that [AddBackend] builds for [b1]. *)
Definition proxy_b1 : pool.ReverseProxy_t := pool.mkReverseProxy b1 true.

(** A request that is not cancelled and carries no retry count. *)
Definition fresh_request : pool.Request := pool.mkRequest false None.

(** A network on which no forward is answered. *)
Definition unreachable : nat -> string -> bool := fun _ _ => false.

(** As [plain_url], but [":"] does not parse ([url.Parse] rejects it:
    missing protocol scheme). *)
Definition checked_url : NetURL :=
  {| url_URL := string;
     url_Parse := fun u => if String.eqb u ":" then None else Some u;
     URL_String := fun u => u |}.

(** Three idle backends with weight 1, over [checked_url]. *)
Definition checked_pool : @pool.ServerPool checked_url :=
  let backend url :=
    @pool.mkBackend checked_url url "" true 1 0 (@pool.mkReverseProxy checked_url url true)
                    0 10 in
  @pool.mkServerPool checked_url [backend b1; backend b2; backend b3]
                     [0; 1; 2]%nat 0 "round-robin" 1000.

End Examples.

(** * Vocabulary of the properties *)

Section Vocabulary.
Context `{NetURL}.

(** What a caller of [IncrementConnections] knows at its program point:
    the count it loaded was below the limit [m]. *)
Definition pc_ok (m : Z) (pc : pool.IncrementPC) : Prop :=
  match pc with
  | pool.AtCompareAndSwap current => current < m
  | _ => True
  end.

(** What the shared record and the callers satisfy, whatever the
    schedule. *)
Definition Callers_inv (m : Z) (σ : pool.Callers) : Prop :=
  pool.MaxConnections (pool.shared σ) = m
  /\ is_int32 (pool.ConnectionCount (pool.shared σ))
  /\ pool.ConnectionCount (pool.shared σ) <= m
  /\ Forall (pc_ok m) (pool.callers σ).

(** The capacities are [int32] values. *)
Definition Pool_typed (s : pool.ServerPool) : Prop :=
  Forall (fun b => is_int32 (pool.MaxConnections b)) (pool.mem s).

(** The invariant of the connection counts. *)
Definition Pool_inv (s : pool.ServerPool) : Prop :=
  Forall (fun b => 0 <= pool.ConnectionCount b <= pool.MaxConnections b) (pool.mem s).

(** The invariant together with the typing of the limit. *)
Definition Backend_good (b : pool.Backend) : Prop :=
  is_int32 (pool.MaxConnections b)
  /\ 0 <= pool.ConnectionCount b <= pool.MaxConnections b.

(** The backend at address [p] carries the URL that [backendURL] parses
    to: the two print the same. *)
Definition has_URL (s : pool.ServerPool) (backendURL : string) (p : nat) : Prop :=
  exists url b,
    url_Parse backendURL = Some url /\ pool.mem s !! p = Some b
    /\ URL_String (pool.URL b) = URL_String url.

(** Every pointer of the slice points into the memory. *)
Definition Pool_wf (s : pool.ServerPool) : Prop :=
  Forall (fun p => (p < length (pool.mem s))%nat) (pool.backends s).

(** The backend of the pool that a configuration entry names, if any. *)
Definition resolve (s : pool.ServerPool) (cfg : config.BackendConfig) : option nat :=
  url ← url_Parse (config.URL cfg);
  pool.find_backend s (URL_String url).

(** The weight that the entries of [configs] naming the backend [p] leave
    in it: that of the last such entry, [w0] when there is none. *)
Definition configured_Weight (s : pool.ServerPool) (p : nat)
           (configs : list config.BackendConfig) (w0 : Z) : Z :=
  foldl (fun w cfg => if bool_decide (resolve s cfg = Some p) then config.Weight cfg else w)
        w0 configs.

(** A backend as [UpdateBackends] creates it. *)
Definition fresh_Backend (url : url_URL) (cfg : config.BackendConfig) : pool.Backend :=
  pool.mkBackend url "" true (config.Weight cfg) 0 (pool.mkReverseProxy url false) 0 0.

(** [m] holds the backends of [s], allowing for other weights. *)
Definition mem_rel (s : pool.ServerPool) (m : list pool.Backend) : Prop :=
  forall p b, pool.mem s !! p = Some b ->
              exists w, m !! p = Some (pool.with_Weight w b).
End Vocabulary.

(** The test of the scan of [NextServer]. *)
Definition eligible (CanAcceptConnection : algorithm.Server -> bool)
           (server : algorithm.Server) : bool :=
  algorithm.Alive server && CanAcceptConnection server.

(** The position reached [j] steps after [idx], cyclically, in a snapshot
    of [l] servers. *)
Definition cyclic (l idx j : Z) : nat := Z.to_nat ((idx + j) mod l).

(** The positions selected by a sequence of calls. *)
Definition selected_positions (rs : list (option algorithm.ServerRef)) : list nat :=
  omap (fun r => fst <$> r) rs.

(** How often position [i] is selected. *)
Definition times_selected (i : nat) (rs : list (option algorithm.ServerRef)) : nat :=
  count_occ Nat.eq_dec (selected_positions rs) i.

(** ** Vocabulary of the further properties *)

Section FurtherVocabulary.
Context `{NetURL}.

(** The [algorithm.Server] that [GetBackends] builds for a backend. *)
Definition Server_of (b : pool.Backend) : algorithm.Server :=
  algorithm.mkServer (URL_String (pool.URL b)) (pool.Weight b) (pool.CurrentWeight b)
                     (pool.ConnectionCount b) (pool.MaxConnections b) (pool.Alive b).

(** The number of entries of the slice whose backend prints the URL [u]. *)
Definition count_URL (s : pool.ServerPool) (u : string) : nat :=
  length (List.filter (pool.url_is s u) (pool.backends s)).

(** The sum of the connection counts of the backends in memory. *)
Definition total_connections (m : list pool.Backend) : Z :=
  foldr (fun b acc => pool.ConnectionCount b + acc) 0 m.

(** The backend that [AddBackend] creates for a configuration entry in the
    pool [s]. *)
Definition added_Backend (s : pool.ServerPool) (url : url_URL) (cfg : config.BackendConfig)
  : pool.Backend :=
  pool.mkBackend url "" true (config.Weight cfg) 0 (pool.mkReverseProxy url true) 0
    (if config.MaxConnections cfg =? 0 then pool.maxConnections s
     else config.MaxConnections cfg).
(** The printed URLs of the entries of a configuration that parse. *)
Definition config_urls (configs : list config.BackendConfig) : list string :=
  omap (fun cfg => URL_String <$> url_Parse (config.URL cfg)) configs.
(** Every backend in memory has a proxy with the [ErrorHandler] of
    [AddBackend] installed. *)
Definition Pool_handlers (s : pool.ServerPool) : Prop :=
  Forall (fun b => pool.ErrorHandlerSet (pool.ReverseProxy b) = true) (pool.mem s).
(** The locations, in registry order, of the services called [name]. *)
Definition locations_named (a : service.Manager) (name : string)
  : list service.LocationInfo :=
  a ≫= (fun srvc => if String.eqb (service.Name srvc) name
                    then service.Locations srvc else []).

(** The statistics of one location, as [handleStats] computes them. *)
Definition location_stats (loc : service.LocationInfo) : admin.Stats :=
  let backends := pool.GetBackends (service.ServerPool loc) in
  admin.mkStats (Z.of_nat (length backends))
                (snd (admin.handleStats_backends backends))
                (fst (admin.handleStats_backends backends)).

(** The health report of one location, as [handleHealth] computes it. *)
Definition location_health (loc : service.LocationInfo) : gmap string admin.Health :=
  admin.handleHealth_backends (pool.GetBackends (service.ServerPool loc)).
End FurtherVocabulary.

(** The value that [Middleware] stores under the header key [k], if any; of
    two writes under one key the later stands. *)
Definition security_header (canonical : string -> string) (s : middleware.ServerSecurity)
           (k : string) : option (list string) :=
  if middleware.XSSProtection s && bool_decide (canonical "X-XSS-Protection" = k)
  then Some ["1; mode=block"]
  else if middleware.ContentTypeOptions s
          && bool_decide (canonical "X-Content-Type-Options" = k)
  then Some ["nosniff"]
  else if negb (String.eqb (middleware.FrameOptions s) "")
          && bool_decide (canonical "X-Frame-Options" = k)
  then Some [middleware.FrameOptions s]
  else if middleware.HSTS s && bool_decide (canonical "Strict-Transport-Security" = k)
  then Some [middleware.hsts_value s]
  else None.

(** The sum of the connection counts of a snapshot. *)
Definition connection_sum (backends : list algorithm.Server) : Z :=
  foldr (fun backend acc => algorithm.ConnectionCount backend + acc) 0 backends.

(** The number of alive servers of a snapshot. *)
Definition alive_count (backends : list algorithm.Server) : Z :=
  Z.of_nat (length (List.filter algorithm.Alive backends)).


(** * Properties *)

(** ** Arithmetic of the machine integers *)

Lemma wrap_int32_id (z : Z) : is_int32 z -> wrap_int32 z = z.
Proof.
  unfold is_int32, wrap_int32. intros Hz.
  rewrite Z.mod_small; lia.
Qed.

Lemma wrap_int32_range (z : Z) : is_int32 (wrap_int32 z).
Proof.
  unfold is_int32, wrap_int32.
  pose proof (Z.mod_pos_bound (z + 2 ^ 31) (2 ^ 32)). lia.
Qed.

Lemma wrap_uint64_id (z : Z) : is_uint64 z -> wrap_uint64 z = z.
Proof. unfold is_uint64, wrap_uint64. intros Hz. apply Z.mod_small. lia. Qed.

Lemma wrap_uint64_range (z : Z) : is_uint64 (wrap_uint64 z).
Proof. unfold is_uint64, wrap_uint64. apply Z.mod_pos_bound. lia. Qed.

(** ** The connection count of one backend *)

Section BackendProperties.
Context `{NetURL}.
Implicit Types b : pool.Backend.

(** The sequential reading of [IncrementConnections]: one iteration
    decides. *)
Lemma IncrementConnections_eq fuel b :
  is_int32 (pool.ConnectionCount b) -> is_int32 (pool.MaxConnections b) ->
  pool.IncrementConnections (S fuel) b =
    if pool.ConnectionCount b <? pool.MaxConnections b
    then Some (true, pool.with_ConnectionCount (pool.ConnectionCount b + 1) b)
    else Some (false, b).
Proof.
  intros Hc Hm. simpl.
  unfold pool.atomic_LoadInt32, pool.atomic_CompareAndSwapInt32.
  destruct (Z.geb_spec (pool.ConnectionCount b) (pool.MaxConnections b)) as [Hge|Hlt].
  - destruct (Z.ltb_spec (pool.ConnectionCount b) (pool.MaxConnections b)); [lia|done].
  - destruct (Z.ltb_spec (pool.ConnectionCount b) (pool.MaxConnections b)); [|lia].
    rewrite Z.eqb_refl, wrap_int32_id; [done|].
    unfold is_int32 in *. lia.
Qed.

Lemma Increment_step_inv m pc b pc' b' :
  is_int32 m ->
  pool.MaxConnections b = m -> is_int32 (pool.ConnectionCount b) ->
  pool.ConnectionCount b <= m -> pc_ok m pc ->
  pool.Increment_step pc b = (pc', b') ->
  pool.MaxConnections b' = m /\ is_int32 (pool.ConnectionCount b')
  /\ pool.ConnectionCount b' <= m /\ pc_ok m pc'.
Proof.
  intros Hm Hmax Hc Hle Hpc Hstep. destruct pc as [|current|r]; simpl in Hstep.
  - unfold pool.atomic_LoadInt32 in Hstep.
    destruct (Z.geb_spec (pool.ConnectionCount b) (pool.MaxConnections b));
      inversion Hstep; subst; simpl; unfold is_int32 in *; repeat split; try done; lia.
  - unfold pool.atomic_CompareAndSwapInt32 in Hstep. simpl in Hpc.
    destruct (Z.eqb_spec (pool.ConnectionCount b) current) as [Heq|Hne];
      inversion Hstep; subst; simpl.
    + rewrite wrap_int32_id by (unfold is_int32 in *; lia).
      unfold is_int32 in *. repeat split; try done; lia.
    + unfold is_int32 in *. repeat split; try done; lia.
  - inversion Hstep; subst. unfold is_int32 in *. repeat split; try done; lia.
Qed.

Lemma Callers_step_inv m i σ :
  is_int32 m -> Callers_inv m σ -> Callers_inv m (pool.Callers_step i σ).
Proof.
  intros Hm (Hmax & Hc & Hle & Hpcs). unfold pool.Callers_step.
  destruct (pool.callers σ !! i) as [pc|] eqn:Hi; [|done].
  destruct (pool.Increment_step pc (pool.shared σ)) as [pc' b'] eqn:Hstep.
  assert (pc_ok m pc) as Hpc by (eapply Forall_lookup_1; eauto).
  destruct (Increment_step_inv m pc _ pc' b' Hm Hmax Hc Hle Hpc Hstep)
    as (? & ? & ? & ?).
  split; [|split; [|split]]; simpl; try done.
  apply Forall_insert; done.
Qed.

Lemma Callers_run_inv m schedule σ :
  is_int32 m -> Callers_inv m σ -> Callers_inv m (pool.Callers_run schedule σ).
Proof.
  intros Hm. revert σ. induction schedule as [|i schedule IH]; intros σ Hσ; [done|].
  simpl. apply IH. by apply Callers_step_inv.
Qed.

Lemma Callers_init_inv n b :
  is_int32 (pool.ConnectionCount b) ->
  pool.ConnectionCount b <= pool.MaxConnections b ->
  Callers_inv (pool.MaxConnections b) (pool.Callers_init n b).
Proof.
  intros Hc Hle. split; [|split; [|split]]; simpl; try done.
  apply Forall_replicate. done.
Qed.

(** The loop run without interference is the caller stepping alone: the
    load and the swap of its one iteration. *)
Lemma IncrementConnections_alone b r b' :
  pool.IncrementConnections 1 b = Some (r, b') ->
  pool.Increment_alone 2 pool.AtLoad b = (pool.Returned r, b').
Proof.
  simpl. unfold pool.atomic_LoadInt32.
  destruct (pool.ConnectionCount b >=? pool.MaxConnections b); simpl.
  - by intros [= <- <-].
  - destruct (pool.atomic_CompareAndSwapInt32 _ _ b) as [[] b0]; simpl; [|done].
    by intros [= <- <-].
Qed.

(** A caller left alone returns within three of its steps, from any
    state of the shared record. *)
Lemma Increment_alone_returns pc b :
  exists r b', pool.Increment_alone 3 pc b = (pool.Returned r, b').
Proof.
  assert (forall b, exists r b', pool.Increment_alone 2 pool.AtLoad b = (pool.Returned r, b'))
    as Hload.
  { clear. intros b. simpl. unfold pool.atomic_LoadInt32, pool.atomic_CompareAndSwapInt32.
    destruct (pool.ConnectionCount b >=? pool.MaxConnections b); simpl; [eauto|].
    unfold pool.atomic_CompareAndSwapInt32. rewrite Z.eqb_refl. eauto. }
  destruct pc as [|current|r].
  - destruct (Hload b) as (r & b' & Hr). exists r, b'.
    simpl in *. destruct (pool.atomic_LoadInt32 b >=? pool.MaxConnections b); simpl in *; [done|].
    destruct (pool.atomic_CompareAndSwapInt32 _ _ b) as [[] ?]; simpl in *; done.
  - change (pool.Increment_alone 3 (pool.AtCompareAndSwap current) b)
      with (let '(pc', b') := pool.Increment_step (pool.AtCompareAndSwap current) b in
            pool.Increment_alone 2 pc' b').
    simpl. destruct (pool.atomic_CompareAndSwapInt32 _ _ b) as [[] b0]; [simpl; eauto|].
    apply Hload.
  - simpl. eauto.
Qed.
End BackendProperties.

(** ** Sequences of operations on the connection counts of a pool *)

Section CountProperties.
Context `{NetURL}.

Lemma Pool_good_iff s :
  Forall Backend_good (pool.mem s) <-> Pool_typed s /\ Pool_inv s.
Proof. unfold Pool_typed, Pool_inv, Backend_good. by rewrite Forall_and. Qed.

Lemma IncrementConnections_good fuel b :
  Backend_good b ->
  exists r b', pool.IncrementConnections (S fuel) b = Some (r, b') /\ Backend_good b'.
Proof.
  intros [Hm Hc]. rewrite IncrementConnections_eq; [|unfold is_int32 in *; lia|done].
  destruct (Z.ltb_spec (pool.ConnectionCount b) (pool.MaxConnections b)).
  - eexists _, _. split; [done|]. split; simpl; [done|lia].
  - eexists _, _. split; [done|]. by split.
Qed.

Lemma DecrementConnections_good b :
  Backend_good b -> 0 < pool.ConnectionCount b ->
  Backend_good (pool.DecrementConnections b).
Proof.
  intros [Hm Hc] Hpos. split; simpl; [done|].
  rewrite wrap_int32_id; unfold is_int32 in *; lia.
Qed.

Lemma Op_exec_good fuel op s :
  Forall Backend_good (pool.mem s) ->
  pool.Op_is_GetNextProxy op = false ->
  pool.Ops_released (S fuel) [op] s = true ->
  exists s', pool.Op_exec (S fuel) op s = Some s' /\ Forall Backend_good (pool.mem s').
Proof.
  intros Hs Hop Hrel. destruct op as [p|p|]; [| |done].
  - unfold pool.Op_exec. destruct (pool.mem s !! p) as [b|] eqn:Hp; [|eauto].
    assert (Backend_good b) as Hb by (eapply Forall_lookup_1; eauto).
    destruct (IncrementConnections_good fuel b Hb) as (r & b' & -> & Hb').
    simpl. eexists. split; [done|]. simpl. by apply Forall_insert.
  - eexists. split; [done|]. simpl. apply Forall_alter; [done|].
    intros b Hp Hb. apply DecrementConnections_good.
    + done.
    + cbn [pool.Ops_released] in Hrel. rewrite Hp in Hrel.
      apply andb_prop in Hrel as [Hpos _]. by apply Z.ltb_lt.
Qed.

Lemma Ops_exec_good fuel ops s :
  Forall Backend_good (pool.mem s) ->
  Forall (fun op => pool.Op_is_GetNextProxy op = false) ops ->
  pool.Ops_released (S fuel) ops s = true ->
  forall k, exists s',
    pool.Ops_exec (S fuel) (take k ops) s = Some s' /\ Forall Backend_good (pool.mem s').
Proof.
  revert s. induction ops as [|op ops IH]; intros s Hs Hops Hrel k.
  - rewrite take_nil. eauto.
  - destruct k as [|k]; [simpl; eauto|].
    apply Forall_cons in Hops as [Hop Hops].
    assert (pool.Ops_released (S fuel) [op] s = true
            /\ forall s', pool.Op_exec (S fuel) op s = Some s' ->
                          pool.Ops_released (S fuel) ops s' = true) as [Hrel1 Hrel2].
    { cbn [pool.Ops_released] in *. apply andb_prop in Hrel as [Hg Hrest].
      split.
      - rewrite Hg. simpl. by destruct (pool.Op_exec (S fuel) op s).
      - intros s' Hs'. by rewrite Hs' in Hrest. }
    destruct (Op_exec_good fuel op s Hs Hop Hrel1) as (s1 & Hs1 & Hgood1).
    destruct (IH s1 Hgood1 Hops (Hrel2 s1 Hs1) k) as (s' & Hs' & Hgood').
    exists s'. split; [|done].
    cbn [take pool.Ops_exec]. rewrite Hs1. exact Hs'.
Qed.
End CountProperties.

(** ** Searching a slice *)

Section RangeFind.
Context {A : Type} (f : A -> bool).

Lemma range_find_Some l i :
  range_find f l = Some i ->
  exists x, l !! i = Some x /\ f x = true
            /\ Forall (fun y => f y = false) (take i l).
Proof.
  revert i. induction l as [|x l IH]; intros i Hi; [done|].
  simpl in Hi. destruct (f x) eqn:Hx.
  - inversion Hi; subst. exists x. by rewrite take_0.
  - destruct (range_find f l) as [j|] eqn:Hj; [|done].
    inversion Hi; subst. destruct (IH j eq_refl) as (y & Hy & Hfy & Hbefore).
    exists y. simpl. repeat split; try done. by constructor.
Qed.

Lemma range_find_None l :
  range_find f l = None <-> Forall (fun y => f y = false) l.
Proof.
  induction l as [|x l IH]; simpl; [done|].
  destruct (f x) eqn:Hx.
  - split; [done|]. intros Hall. apply Forall_cons in Hall as [? _]. congruence.
  - destruct (range_find f l); simpl.
    + split; [done|]. intros Hall. apply Forall_cons in Hall as [_ Hall].
      by apply IH in Hall.
    + split; [|done]. intros _. constructor; [done|]. by apply IH.
Qed.

Lemma range_find_ext (g : A -> bool) l :
  Forall (fun x => f x = g x) l -> range_find f l = range_find g l.
Proof.
  induction 1 as [|x l Hx _ IH]; simpl; [done|]. by rewrite Hx, IH.
Qed.
End RangeFind.

(** ** Removing and replacing backends *)

Section PoolProperties.
Context `{NetURL}.

Lemma url_is_true s u p :
  pool.url_is s u p = true <->
  exists b, pool.mem s !! p = Some b /\ URL_String (pool.URL b) = u.
Proof.
  unfold pool.url_is. destruct (pool.mem s !! p) as [b|].
  - rewrite String.eqb_eq. split; [eauto|]. by intros (? & [= <-] & ?).
  - split; [done|]. by intros (? & ? & ?).
Qed.

Lemma has_URL_url_is s backendURL url p :
  url_Parse backendURL = Some url ->
  has_URL s backendURL p <-> pool.url_is s (URL_String url) p = true.
Proof.
  intros Hparse. rewrite url_is_true. unfold has_URL. split.
  - intros (url' & b & Hparse' & Hb & Hu). rewrite Hparse in Hparse'.
    inversion Hparse'; subst. eauto.
  - intros (b & Hb & Hu). eauto.
Qed.

Lemma RemoveBackend_found backendURL s :
  (exists p, p ∈ pool.backends s /\ has_URL s backendURL p) ->
  exists before p after,
    pool.backends s = before ++ p :: after
    /\ has_URL s backendURL p
    /\ Forall (fun q => ~ has_URL s backendURL q) before
    /\ pool.RemoveBackend backendURL s = (None, pool.with_backends (before ++ after) s).
Proof.
  intros (p0 & Hin & Hp0). unfold pool.RemoveBackend.
  destruct Hp0 as (url & b0 & Hparse & Hb0 & Hu0). rewrite Hparse.
  destruct (range_find (pool.url_is s (URL_String url)) (pool.backends s)) as [i|] eqn:Hfind.
  - apply range_find_Some in Hfind as (p & Hp & Hmatch & Hbefore).
    exists (take i (pool.backends s)), p, (drop (S i) (pool.backends s)).
    split; [by rewrite take_drop_middle|].
    split; [by apply (has_URL_url_is s backendURL url)|].
    split; [|done].
    eapply Forall_impl; [exact Hbefore|]. intros q Hq Hhas. simpl in Hq.
    apply (has_URL_url_is s backendURL url) in Hhas; congruence.
  - apply range_find_None in Hfind.
    rewrite Forall_forall in Hfind. specialize (Hfind p0 Hin).
    assert (pool.url_is s (URL_String url) p0 = true) as Htrue
        by (apply url_is_true; eauto).
    congruence.
Qed.

Lemma RemoveBackend_not_found backendURL s :
  ~ (exists p, p ∈ pool.backends s /\ has_URL s backendURL p) ->
  exists err, pool.RemoveBackend backendURL s = (Some err, s).
Proof.
  intros Hnone. unfold pool.RemoveBackend.
  destruct (url_Parse backendURL) as [url|] eqn:Hparse; [|eauto].
  destruct (range_find (pool.url_is s (URL_String url)) (pool.backends s)) as [i|] eqn:Hfind;
    [|eauto].
  apply range_find_Some in Hfind as (p & Hp & Hmatch & _).
  destruct Hnone. exists p. split.
  - apply list_elem_of_lookup. eauto.
  - by apply (has_URL_url_is s backendURL url).
Qed.
End PoolProperties.

Section UpdateProperties.
Context `{NetURL}.

Lemma mem_rel_refl s : mem_rel s (pool.mem s).
Proof. intros p b Hp. exists (pool.Weight b). rewrite Hp. by destruct b. Qed.

Lemma find_backend_Some s u p :
  pool.find_backend s u = Some p ->
  p ∈ pool.backends s /\ pool.url_is s u p = true.
Proof.
  unfold pool.find_backend. intros Hfind.
  destruct (range_find (pool.url_is s u) (pool.backends s)) as [i|] eqn:Hi; [|done].
  simpl in Hfind. apply range_find_Some in Hi as (q & Hq & Hmatch & _).
  rewrite Hq in Hfind. inversion Hfind; subst.
  split; [|done]. apply list_elem_of_lookup. eauto.
Qed.

Lemma find_backend_mem_rel s m u :
  Pool_wf s -> mem_rel s m ->
  pool.find_backend (pool.with_mem m s) u = pool.find_backend s u.
Proof.
  intros Hwf Hrel. unfold pool.find_backend. simpl.
  rewrite (range_find_ext _ (pool.url_is s u)); [done|].
  eapply Forall_impl; [exact Hwf|]. intros p Hp. simpl in Hp.
  apply lookup_lt_is_Some_2 in Hp as [b Hb].
  destruct (Hrel p b Hb) as [w Hw].
  unfold pool.url_is. simpl. by rewrite Hb, Hw.
Qed.

Lemma configured_Weight_cons s p cfg configs w0 :
  configured_Weight s p (cfg :: configs) w0 =
  configured_Weight s p configs
    (if bool_decide (resolve s cfg = Some p) then config.Weight cfg else w0).
Proof. done. Qed.

Lemma UpdateBackends_loop_spec s configs :
  Pool_wf s ->
  Forall (fun cfg => is_Some (url_Parse (config.URL cfg))) configs ->
  forall m newBackends,
    mem_rel s m -> (length (pool.mem s) <= length m)%nat ->
    exists m' added,
      pool.UpdateBackends_loop s configs m newBackends = (None, m', newBackends ++ added)
      /\ length added = length configs
      /\ mem_rel s m'
      /\ (length m <= length m')%nat
      /\ (forall q, (length (pool.mem s) <= q < length m)%nat -> m' !! q = m !! q)
      /\ (forall p b w, pool.mem s !! p = Some b -> m !! p = Some (pool.with_Weight w b) ->
            m' !! p = Some (pool.with_Weight (configured_Weight s p configs w) b))
      /\ (forall i cfg, configs !! i = Some cfg ->
            match resolve s cfg with
            | Some p => added !! i = Some p
            | None =>
                exists q url,
                  url_Parse (config.URL cfg) = Some url
                  /\ added !! i = Some q /\ (length m <= q)%nat
                  /\ m' !! q = Some (fresh_Backend url cfg)
            end).
Proof.
  intros Hwf Hparse. induction Hparse as [|cfg configs [url Hurl] _ IH];
    intros m newBackends Hrel Hlen.
  - exists m, []. simpl. rewrite app_nil_r.
    repeat split; done.
  - cbn [pool.UpdateBackends_loop]. unfold pool.UpdateBackends_body.
    rewrite Hurl, (find_backend_mem_rel s m _ Hwf Hrel).
    assert (resolve s cfg = pool.find_backend s (URL_String url)) as Hres
        by (unfold resolve; by rewrite Hurl).
    destruct (pool.find_backend s (URL_String url)) as [p|] eqn:Hfind.
    + (* an existing backend *)
      apply find_backend_Some in Hfind as [Hin _].
      assert (p < length (pool.mem s))%nat as Hp
          by (unfold Pool_wf in Hwf; rewrite Forall_forall in Hwf; by apply Hwf).
      set (m1 := alter (pool.with_Weight (config.Weight cfg)) p m).
      assert (mem_rel s m1) as Hrel1.
      { intros q b Hq. destruct (Hrel q b Hq) as [w Hw]. unfold m1.
        destruct (decide (p = q)) as [->|Hne].
        - exists (config.Weight cfg). rewrite list_lookup_alter_eq, Hw. done.
        - exists w. by rewrite list_lookup_alter_ne. }
      assert (length m1 = length m) as Hlen1 by apply length_alter.
      destruct (IH m1 (newBackends ++ [p]) Hrel1 ltac:(lia))
        as (m' & added & Hloop & Hadded & Hrel' & Hlen' & Hkeep & Hweight & Hnew).
      exists m', (p :: added). rewrite Hloop, <- app_assoc.
      split; [done|]. split; [simpl; by rewrite Hadded|]. split; [done|].
      split; [lia|]. split; [|split].
      * intros q Hq. rewrite Hkeep by lia. unfold m1.
        apply list_lookup_alter_ne. lia.
      * intros q b w Hq Hmq. rewrite configured_Weight_cons.
        apply Hweight; [done|]. unfold m1. rewrite Hres.
        destruct (decide (p = q)) as [->|Hne].
        -- rewrite list_lookup_alter_eq, Hmq, bool_decide_eq_true_2 by done. done.
        -- rewrite list_lookup_alter_ne, Hmq, bool_decide_eq_false_2 by congruence. done.
      * intros [|i] cfg' Hi; simpl in Hi.
        -- inversion Hi; subst. by rewrite Hres.
        -- specialize (Hnew i cfg' Hi). destruct (resolve s cfg'); [done|].
           destruct Hnew as (q & url' & ? & ? & ? & ?). exists q, url'.
           repeat split; try done. lia.
    + (* a new backend *)
      set (m1 := m ++ [fresh_Backend url cfg]).
      assert (mem_rel s m1) as Hrel1.
      { intros q b Hq. destruct (Hrel q b Hq) as [w Hw]. exists w.
        unfold m1. rewrite lookup_app_l; [done|]. by eapply lookup_lt_Some. }
      assert (length m1 = S (length m)) as Hlen1
          by (unfold m1; rewrite length_app; simpl; lia).
      destruct (IH m1 (newBackends ++ [length m]) Hrel1 ltac:(lia))
        as (m' & added & Hloop & Hadded & Hrel' & Hlen' & Hkeep & Hweight & Hnew).
      exists m', (length m :: added).
      change (pool.mkBackend url "" true (config.Weight cfg) 0
                (pool.mkReverseProxy url false) 0 0) with (fresh_Backend url cfg).
      fold m1. rewrite Hloop, <- app_assoc.
      split; [done|]. split; [simpl; by rewrite Hadded|]. split; [done|].
      split; [lia|]. split; [|split].
      * intros q Hq. rewrite Hkeep by lia. unfold m1.
        apply lookup_app_l. lia.
      * intros q b w Hq Hmq. rewrite configured_Weight_cons.
        rewrite Hres, bool_decide_eq_false_2 by done.
        apply Hweight; [done|]. unfold m1. rewrite lookup_app_l; [done|].
        by eapply lookup_lt_Some.
      * intros [|i] cfg' Hi; simpl in Hi.
        -- inversion Hi; subst. rewrite Hres. exists (length m), url.
           repeat split; try done. rewrite Hkeep by lia.
           unfold m1. by rewrite list_lookup_middle.
        -- specialize (Hnew i cfg' Hi). destruct (resolve s cfg'); [done|].
           destruct Hnew as (q & url' & ? & ? & ? & ?). exists q, url'.
           repeat split; try done. lia.
Qed.
End UpdateProperties.

(** ** The round-robin policy *)

Section RoundRobinProperties.
Variable CanAcceptConnection : algorithm.Server -> bool.
Context {P : Type} `{algorithm.ServerPool P}.

Lemma cyclic_lt l idx j : 0 < l -> (cyclic l idx j < Z.to_nat l)%nat.
Proof.
  intros Hl. unfold cyclic. pose proof (Z.mod_pos_bound (idx + j) l Hl). lia.
Qed.

Lemma NextServer_scan_spec (servers : list algorithm.Server) (idx : Z) :
  let l := Z.of_nat (length servers) in
  l < 2 ^ 63 -> 0 <= idx < l ->
  forall n i, 0 <= i -> i + Z.of_nat n <= l ->
    match algorithm.NextServer_scan CanAcceptConnection servers idx l i n with
    | Some (k, server) =>
        exists j, i <= j < i + Z.of_nat n
                  /\ k = cyclic l idx j
                  /\ servers !! k = Some server
                  /\ eligible CanAcceptConnection server = true
                  /\ forall j' server', i <= j' < j ->
                       servers !! cyclic l idx j' = Some server' ->
                       eligible CanAcceptConnection server' = false
    | None =>
        forall j server', i <= j < i + Z.of_nat n ->
          servers !! cyclic l idx j = Some server' -> eligible CanAcceptConnection server' = false
    end.
Proof.
  intros l Hl Hidx n. induction n as [|n IH]; intros i Hi Hin.
  - simpl. intros j server' Hj. lia.
  - cbn [algorithm.NextServer_scan].
    assert (wrap_uint64 (idx + i) = idx + i) as ->
        by (apply wrap_uint64_id; unfold is_uint64; lia).
    assert (wrap_uint64 (i + 1) = i + 1) as ->
        by (apply wrap_uint64_id; unfold is_uint64; lia).
    fold (cyclic l idx i).
    assert (cyclic l idx i < length servers)%nat as Hlt
        by (pose proof (cyclic_lt l idx i); lia).
    apply lookup_lt_is_Some_2 in Hlt as [server Hserver]. rewrite Hserver.
    fold (eligible CanAcceptConnection server). destruct (eligible CanAcceptConnection server) eqn:Hel.
    + exists i. repeat split; try done; lia.
    + specialize (IH (i + 1) ltac:(lia) ltac:(lia)).
      destruct (algorithm.NextServer_scan _ _ _ _ _ _) as [[k server0]|].
      * destruct IH as (j & Hj & Hk & Hsk & Hel0 & Hbefore).
        exists j. repeat split; try done; try lia.
        intros j' server' Hj' Hs'. destruct (decide (j' = i)) as [->|Hne].
        -- congruence.
        -- apply (Hbefore j'); [lia|done].
      * intros j server' Hj Hs'. destruct (decide (j = i)) as [->|Hne].
        -- congruence.
        -- apply (IH j); [lia|done].
Qed.

(** Every position is visited by a full cycle. *)
Lemma cyclic_onto l idx (k : nat) :
  0 < l -> (k < Z.to_nat l)%nat ->
  exists j, 0 <= j < l /\ cyclic l idx j = k.
Proof.
  intros Hl Hk. exists ((Z.of_nat k - idx) mod l). split.
  - apply Z.mod_pos_bound. lia.
  - unfold cyclic. rewrite Z.add_mod_idemp_r by lia.
    replace (idx + (Z.of_nat k - idx)) with (Z.of_nat k) by lia.
    rewrite Z.mod_small by lia. lia.
Qed.

Lemma cyclic_inj l idx j j' :
  0 <= j < l -> 0 <= j' < l -> cyclic l idx j = cyclic l idx j' -> j = j'.
Proof.
  intros Hj Hj' Heq. unfold cyclic in Heq.
  assert ((idx + j) mod l = (idx + j') mod l) as Hmod.
  { pose proof (Z.mod_pos_bound (idx + j) l ltac:(lia)).
    pose proof (Z.mod_pos_bound (idx + j') l ltac:(lia)). lia. }
  assert (((idx + j) mod l - idx) mod l = ((idx + j') mod l - idx) mod l) as Hsub
      by (by rewrite Hmod).
  rewrite !Zminus_mod_idemp_l in Hsub.
  replace (idx + j - idx) with j in Hsub by lia.
  replace (idx + j' - idx) with j' in Hsub by lia.
  rewrite !Z.mod_small in Hsub by lia. done.
Qed.

(** One value taken exactly once over a range is counted once. *)
Lemma count_occ_map_seq_unique (f : nat -> nat) (i start n j0 : nat) :
  (start <= j0 < start + n)%nat -> f j0 = i ->
  (forall j, (start <= j < start + n)%nat -> f j = i -> j = j0) ->
  count_occ Nat.eq_dec (map f (seq start n)) i = 1%nat.
Proof.
  revert start. induction n as [|n IH]; intros start Hj0 Hf Huniq; [lia|].
  cbn [seq map]. destruct (decide (start = j0)) as [->|Hne].
  - rewrite count_occ_cons_eq by done. f_equal.
    apply count_occ_not_In. intros Hin. apply in_map_iff in Hin as (j & Hfj & Hj).
    apply in_seq in Hj. specialize (Huniq j ltac:(lia) Hfj). lia.
  - rewrite count_occ_cons_neq.
    + apply IH; [lia|done|]. intros j Hj. apply Huniq. lia.
    + intros Hstart. specialize (Huniq start ltac:(lia) Hstart). lia.
Qed.

Lemma count_occ_cycle (N : nat) (a : Z) (i : nat) :
  (i < N)%nat ->
  count_occ Nat.eq_dec (map (fun j => cyclic (Z.of_nat N) a (Z.of_nat j)) (seq 0 N)) i = 1%nat.
Proof.
  intros Hi. destruct (cyclic_onto (Z.of_nat N) a i ltac:(lia) ltac:(lia)) as (j0 & Hj0 & Hc).
  apply (count_occ_map_seq_unique _ i 0 N (Z.to_nat j0)).
  - lia.
  - by rewrite Z2Nat.id by lia.
  - intros j Hj Hcj.
    assert (Z.of_nat j = j0); [|lia].
    apply (cyclic_inj (Z.of_nat N) a); [lia|lia|congruence].
Qed.

Lemma count_occ_cycles (N k : nat) (a : Z) (i : nat) :
  (i < N)%nat ->
  count_occ Nat.eq_dec
    (map (fun j => cyclic (Z.of_nat N) a (Z.of_nat j)) (seq 0 (k * N))) i = k.
Proof.
  intros Hi. revert a. induction k as [|k IH]; intros a; [done|].
  change (S k * N)%nat with (N + k * N)%nat.
  rewrite seq_app, map_app, count_occ_app, count_occ_cycle by done.
  f_equal. change (0 + N)%nat with N.
  assert (map (fun j => cyclic (Z.of_nat N) a (Z.of_nat j)) (seq N (k * N))
          = map (fun j => cyclic (Z.of_nat N) (a + Z.of_nat N) (Z.of_nat j)) (seq 0 (k * N)))
    as ->; [|apply IH].
  replace (seq N (k * N)) with (Nat.add N <$> seq 0 (k * N))
    by (rewrite fmap_add_seq; f_equal; lia).
  change (@map) with (@fmap list _). rewrite <- list_fmap_compose.
  apply list_fmap_ext. intros _ j _. simpl. unfold cyclic. f_equal. f_equal. lia.
Qed.

Lemma NextServer_all_eligible (pool : P) :
  let servers := algorithm.GetBackends pool in
  let l := Z.of_nat (length servers) in
  let next := wrap_uint64 (algorithm.GetCurrentIndex pool + 1) in
  0 < l < 2 ^ 63 ->
  Forall (fun server => eligible CanAcceptConnection server = true) servers ->
  exists server,
    servers !! cyclic l next 0 = Some server
    /\ algorithm.NextServer CanAcceptConnection pool
       = (Some (cyclic l next 0, server), algorithm.SetCurrentIndex next pool).
Proof.
  intros servers l next Hl Hall. unfold algorithm.NextServer.
  fold servers. fold l. fold next.
  destruct (Nat.eqb_spec (length servers) 0) as [H0|_]; [lia|].
  assert (cyclic l next 0 < length servers)%nat as Hlt
      by (pose proof (cyclic_lt l next 0); lia).
  apply lookup_lt_is_Some_2 in Hlt as [server Hserver].
  exists server. split; [done|]. f_equal.
  destruct (length servers) as [|n] eqn:HN; [lia|].
  cbn [algorithm.NextServer_scan].
  pose proof (Z.mod_pos_bound next l ltac:(lia)) as Hidx.
  assert (wrap_uint64 (next mod l + 0) mod l = (next + 0) mod l) as ->.
  { rewrite wrap_uint64_id by (unfold is_uint64; lia).
    rewrite !Z.add_0_r. apply Z.mod_mod. lia. }
  fold (cyclic l next 0). rewrite Hserver.
  rewrite Forall_forall in Hall.
  assert (eligible CanAcceptConnection server = true) as Hel
      by (apply Hall; apply list_elem_of_lookup; eauto).
  unfold eligible in Hel. by rewrite Hel.
Qed.

Lemma NextServer_calls_positions (n : nat) (pool : P) :
  let servers := algorithm.GetBackends pool in
  let l := Z.of_nat (length servers) in
  let c := algorithm.GetCurrentIndex pool in
  0 < l < 2 ^ 63 ->
  Forall (fun server => eligible CanAcceptConnection server = true) servers ->
  0 <= c -> c + Z.of_nat n < 2 ^ 64 ->
  selected_positions (fst (algorithm.NextServer_calls CanAcceptConnection n pool))
  = map (fun j => cyclic l (c + 1) (Z.of_nat j)) (seq 0 n).
Proof.
  revert pool. induction n as [|n IH]; intros pool servers l c Hl Hall Hc Hn; [done|].
  cbn [algorithm.NextServer_calls].
  destruct (NextServer_all_eligible pool Hl Hall) as (server & Hserver & ->).
  fold c. rewrite wrap_uint64_id by (unfold is_uint64; lia).
  specialize (IH (algorithm.SetCurrentIndex (c + 1) pool)). cbv zeta in IH.
  rewrite algorithm.GetBackends_Set, algorithm.GetCurrentIndex_Set in IH.
  fold servers in IH. fold l in IH.
  specialize (IH Hl Hall ltac:(lia) ltac:(lia)).
  destruct (algorithm.NextServer_calls CanAcceptConnection n _) as [rs pool2].
  simpl in IH. cbn [fst selected_positions omap list_omap fmap option_fmap option_map].
  fold (selected_positions rs). rewrite IH.
  cbn [seq map]. f_equal.
  rewrite <- seq_shift, map_map. apply map_ext. intros j.
  unfold cyclic. f_equal. f_equal. lia.
Qed.
End RoundRobinProperties.

(** * The claims *)

(** ** C1: the bounds of the connection count *)

(** C1, refuted as stated.  A [DecrementConnections] that no acquire
    precedes takes the count of an idle backend from 0 to -1, and
    [GetNextProxy] takes the count of a backend that is at its limit of 1
    to 2: after either, [0 <= ConnectionCount <= MaxConnections] is false. *)
Lemma connection_count_bounds_counterexample :
  Examples.counts Examples.idle_pool = [(0, 1)]
  /\ Examples.counts <$> pool.Ops_exec 1 [pool.OpDecrementConnections 0%nat] Examples.idle_pool
     = Some [(-1, 1)]
  /\ Examples.counts Examples.full_pool = [(1, 1)]
  /\ Examples.counts <$> pool.Ops_exec 1 [pool.OpGetNextProxy] Examples.full_pool
     = Some [(2, 1)].
Proof. vm_compute. done. Qed.

(** C1, as amended.  In a pool whose backends satisfy
    [0 <= ConnectionCount <= MaxConnections], every sequence of
    [IncrementConnections] and [DecrementConnections] in which each
    [DecrementConnections] finds a positive count (it gives back a slot
    acquired before) runs to completion and keeps
    [0 <= ConnectionCount <= MaxConnections] for every backend at every
    point of the sequence.  [GetNextProxy] is not covered. *)
Theorem connection_count_bounds `{NetURL} (fuel : nat) (ops : list pool.Op)
        (s : pool.ServerPool) :
  Pool_typed s -> Pool_inv s ->
  Forall (fun op => pool.Op_is_GetNextProxy op = false) ops ->
  pool.Ops_released (S fuel) ops s = true ->
  forall k, exists s',
    pool.Ops_exec (S fuel) (take k ops) s = Some s' /\ Pool_inv s'.
Proof.
  intros Htyped Hinv Hops Hrel k.
  destruct (Ops_exec_good fuel ops s) with (k := k) as (s' & Hs' & Hgood); try done.
  - by apply Pool_good_iff.
  - exists s'. split; [done|]. by apply Pool_good_iff in Hgood as [_ ?].
Qed.

Lemma connection_count_bounds_witness :
  exists s',
    pool.Ops_exec 1
      (take 3 [pool.OpIncrementConnections 0%nat; pool.OpDecrementConnections 0%nat;
               pool.OpIncrementConnections 0%nat])
      Examples.idle_pool = Some s'
    /\ Pool_inv s'.
Proof.
  apply (connection_count_bounds (H := Examples.plain_url) 0).
  - repeat constructor; unfold is_int32; simpl; lia.
  - repeat constructor; simpl; lia.
  - repeat constructor.
  - vm_compute. reflexivity.
Defined.

(** ** C4: [IncrementConnections] *)

(** C4.  For a backend with count [c] and limit [m], [IncrementConnections]
    returns (one iteration of its loop is enough when nobody interferes);
    it returns [true] exactly when [c < m], leaving the count at [c + 1],
    and otherwise [false], leaving the backend unchanged.  It never waits:
    from any state of the backend, a caller at any point of the loop
    returns within three steps of its own.  Under any interleaving of any
    number of concurrent callers, the count stays at most [m]. *)
Theorem IncrementConnections_try_acquire `{NetURL} (fuel : nat) (b : pool.Backend) :
  is_int32 (pool.ConnectionCount b) -> is_int32 (pool.MaxConnections b) ->
  let c := pool.ConnectionCount b in
  let m := pool.MaxConnections b in
  (exists r b',
      pool.IncrementConnections (S fuel) b = Some (r, b')
      /\ (r = true <-> c < m)
      /\ (r = true -> b' = pool.with_ConnectionCount (c + 1) b)
      /\ (r = false -> b' = b))
  /\ (forall pc b0, exists r b', pool.Increment_alone 3 pc b0 = (pool.Returned r, b'))
  /\ (c <= m -> forall n schedule,
        let σ := pool.Callers_run schedule (pool.Callers_init n b) in
        pool.ConnectionCount (pool.shared σ) <= m
        /\ pool.MaxConnections (pool.shared σ) = m).
Proof.
  intros Hc Hm c m. split; [|split].
  - rewrite IncrementConnections_eq by done. fold c m.
    destruct (Z.ltb_spec c m) as [Hlt|Hge].
    + eexists _, _. split; [done|]. repeat split; try done.
    + eexists _, _. split; [done|]. repeat split; try done; try lia.
  - apply Increment_alone_returns.
  - intros Hle n schedule σ.
    destruct (Callers_run_inv m schedule (pool.Callers_init n b) Hm) as (? & ? & ? & ?);
      [|done].
    by apply Callers_init_inv.
Qed.

Lemma IncrementConnections_try_acquire_witness :
  pool.IncrementConnections 1 (Examples.backend Examples.b1 true 1 0 1)
  = Some (true, Examples.backend Examples.b1 true 1 1 1)
  /\ pool.ConnectionCount
       (pool.shared (pool.Callers_run [0; 1; 1; 0; 0; 1]%nat
                       (pool.Callers_init 2 (Examples.backend Examples.b1 true 1 0 1))))
     <= 1.
Proof.
  destruct (IncrementConnections_try_acquire (H := Examples.plain_url) 0
              (Examples.backend Examples.b1 true 1 0 1))
    as ((r & b' & Hinc & Hr & Hb' & _) & _ & Hrun).
  - unfold is_int32. simpl. lia.
  - unfold is_int32. simpl. lia.
  - split.
    + vm_compute. reflexivity.
    + apply Hrun. simpl. lia.
Defined.

(** ** C5: [DecrementConnections] at zero *)

(** C5, refuted as stated.  Releasing an idle backend leaves its count at
    -1, not at 0. *)
Lemma DecrementConnections_zero_counterexample :
  pool.ConnectionCount (Examples.backend Examples.b1 true 1 0 1) = 0
  /\ pool.ConnectionCount
       (pool.DecrementConnections (Examples.backend Examples.b1 true 1 0 1)) = -1.
Proof. vm_compute. done. Qed.

(** C5, as amended.  [DecrementConnections] lowers the connection count by
    exactly one and changes nothing else, whatever the count (above the
    least [int32]); there is no floor: from zero the count becomes -1. *)
Theorem DecrementConnections_no_floor `{NetURL} (b : pool.Backend) :
  - 2 ^ 31 < pool.ConnectionCount b < 2 ^ 31 ->
  pool.DecrementConnections b = pool.with_ConnectionCount (pool.ConnectionCount b - 1) b
  /\ (pool.ConnectionCount b = 0 ->
      pool.ConnectionCount (pool.DecrementConnections b) = -1).
Proof.
  intros Hc. unfold pool.DecrementConnections, pool.atomic_AddInt32. simpl.
  rewrite wrap_int32_id by (unfold is_int32; lia).
  split; [done|]. intros ->. done.
Qed.

Lemma DecrementConnections_no_floor_witness :
  pool.DecrementConnections (Examples.backend Examples.b1 true 1 0 1)
  = Examples.backend Examples.b1 true 1 (-1) 1.
Proof.
  destruct (DecrementConnections_no_floor (H := Examples.plain_url)
              (Examples.backend Examples.b1 true 1 0 1)) as [Heq _].
  - simpl. lia.
  - exact Heq.
Defined.

(** ** C2: the error handler of a backend's proxy *)

Section ConcreteRuns.
#[local] Existing Instance Examples.plain_url.

(** A forward that meets a transport error hands over to the handler. *)
Lemma ServeHTTP_failed RoundTrip fuel proxy r x :
  RoundTrip (length (pool.Forwards x)) (pool.Target proxy) = false ->
  pool.ErrorHandlerSet proxy = true ->
  pool.ServeHTTP RoundTrip (S fuel) proxy r x
  = pool.ErrorHandler (pool.ServeHTTP RoundTrip fuel) (pool.Target proxy) r
      (pool.mkExchange (pool.Pool x) (pool.Writes x)
                       (pool.Forwards x ++ [pool.Target proxy])).
Proof.
  intros Hrt Hset. destruct x as [s ws fs]. simpl in *.
  by rewrite Hrt, Hset.
Qed.

(** With [b1] as the only backend and Examples.unreachable, a forward to it never
    comes to an end: whatever the fuel, it runs out. *)
Lemma ServeHTTP_unreachable_diverges fuel s ws fs :
  pool.backends s = [0%nat] ->
  (exists b, pool.mem s = [b] /\ pool.URL b = Examples.b1
             /\ pool.ReverseProxy b = Examples.proxy_b1) ->
  pool.ServeHTTP Examples.unreachable fuel Examples.proxy_b1 Examples.fresh_request (pool.mkExchange s ws fs) = None.
Proof.
  revert s ws fs. induction fuel as [|fuel IH]; intros s ws fs Hbs (b & Hmem & Hurl & Hproxy);
    [done|].
  destruct s as [m bs cur alg maxc]. simpl in Hbs, Hmem. subst m bs.
  destruct b as [u h a w cw rp c mc]. simpl in Hurl, Hproxy. subst u rp.
  rewrite ServeHTTP_failed by done. unfold pool.ErrorHandler.
  cbn -[pool.ServeHTTP wrap_uint64 wrap_int32 Z.modulo Z.add].
  unfold pool.GetNextProxy, pool.GetNextPeer.
  cbn -[pool.ServeHTTP wrap_uint64 wrap_int32 Z.modulo Z.add].
  rewrite Z.mod_1_r.
  cbn -[pool.ServeHTTP wrap_uint64 wrap_int32 Z.modulo Z.add].
  apply IH; [done|]. eexists. repeat split.
Qed.

(** C2, the code at the failing input.  The pool holds the single backend
    [b1], whose one slot the request has acquired; the request carries no
    retry count.
    - When the first five forwards meet a transport error and the sixth
      is answered, the request is forwarded six times, five of them
      retries; [b1] is marked not alive, and its count, never released
      and raised by every retry, ends at 6 for a limit of 1.
    - When no forward is ever answered, the handler never comes to an
      end: it retries whatever the fuel, and no 503 is written.
    - When the context holds the retry count 3, the handler marks [b1]
      not alive and returns: nothing is written to the client, and the
      slot is still held. *)
Theorem ErrorHandler_retry_defects :
  pool.ServeHTTP (fun n _ => (5 <=? n)%nat) 7 Examples.proxy_b1 Examples.fresh_request
                 (pool.mkExchange Examples.full_pool [] [])
  = Some (pool.mkExchange
            (Examples.pool_of [Examples.backend Examples.b1 false 1 6 1] 5)
            [pool.UpstreamResponse Examples.b1]
            (replicate 6 Examples.b1))
  /\ (forall fuel,
        pool.ServeHTTP Examples.unreachable fuel Examples.proxy_b1 Examples.fresh_request
                       (pool.mkExchange Examples.full_pool [] []) = None)
  /\ pool.ServeHTTP Examples.unreachable 1 Examples.proxy_b1 (pool.mkRequest false (Some 3))
                    (pool.mkExchange Examples.full_pool [] [])
     = Some (pool.mkExchange
               (Examples.pool_of [Examples.backend Examples.b1 false 1 1 1] 0)
               [] [Examples.b1]).
Proof.
  split; [by vm_compute|]. split; [|by vm_compute].
  intros fuel. apply ServeHTTP_unreachable_diverges; [done|].
  eexists. repeat split.
Qed.

(** ** C3: the pool's own selection *)

(** C3, the code at the failing input.  [GetNextPeer] hands out the only
    backend of a pool although it is marked not alive; [GetNextProxy] hands
    out the proxy of a backend that is at its limit, and raises its count
    from 1 to 2 for a limit of 1, without going through
    [IncrementConnections]. *)
Theorem GetNextPeer_returns_unacceptable :
  fst (pool.GetNextPeer Examples.dead_pool) = Some 0%nat
  /\ pool.Alive <$> pool.mem Examples.dead_pool !! 0%nat = Some false
  /\ fst (pool.GetNextProxy Examples.full_pool) = Some Examples.proxy_b1
  /\ Examples.counts Examples.full_pool = [(1, 1)]
  /\ Examples.counts (snd (pool.GetNextProxy Examples.full_pool)) = [(2, 1)].
Proof. by vm_compute. Qed.
End ConcreteRuns.

(** ** C6: what [NextServer] returns *)

(** C6, refuted as stated.  On an empty snapshot [NextServer] returns before
    it touches the cursor: from cursor 5 it returns nothing and the cursor
    is still 5, not 6.  And the cursor is a [uint64]: from [c = 2^64 - 1],
    with three idle backends, the cursor becomes 0 and the scan starts at
    position 0, whereas [(c + 1) mod 3] is 1. *)
Lemma RoundRobin_NextServer_counterexample :
  (algorithm.GetBackends (Examples.pool_of [] 5) = []
   /\ algorithm.GetCurrentIndex (Examples.pool_of [] 5) = 5
   /\ algorithm.NextServer Examples.CanAcceptConnection (Examples.pool_of [] 5)
      = (None, Examples.pool_of [] 5)
   /\ algorithm.GetCurrentIndex
        (snd (algorithm.NextServer Examples.CanAcceptConnection (Examples.pool_of [] 5)))
      = 5)
  /\ (fst <$> fst (algorithm.NextServer Examples.CanAcceptConnection
                     (Examples.three_pool (2 ^ 64 - 1)))
      = Some 0%nat
      /\ algorithm.GetCurrentIndex
           (snd (algorithm.NextServer Examples.CanAcceptConnection
                   (Examples.three_pool (2 ^ 64 - 1))))
         = 0
      /\ (2 ^ 64 - 1 + 1) mod 3 = 1).
Proof. by vm_compute. Qed.

(** C6, as amended.  On a snapshot of [N > 0] servers and cursor [c],
    [NextServer] stores the cursor [next = (c + 1) mod 2^64] and scans the
    positions [(next mod N + j) mod N] for [j = 0, 1, ..., N - 1] in this
    order; it returns the server at the first of them that is alive and can
    accept a connection, and nothing when no server of the snapshot is so.
    On the empty snapshot it returns nothing and leaves the pool, cursor
    included, as it is.  The backend list is never changed. *)
Theorem RoundRobin_NextServer_spec (CanAcceptConnection : algorithm.Server -> bool)
        {P : Type} `{algorithm.ServerPool P} (pool : P) :
  let servers := algorithm.GetBackends pool in
  let l := Z.of_nat (length servers) in
  let next := wrap_uint64 (algorithm.GetCurrentIndex pool + 1) in
  l < 2 ^ 63 ->
  exists r pool',
    algorithm.NextServer CanAcceptConnection pool = (r, pool')
    /\ algorithm.GetBackends pool' = servers
    /\ (servers = [] -> r = None /\ pool' = pool)
    /\ (servers <> [] ->
        algorithm.GetCurrentIndex pool' = next
        /\ match r with
           | Some (k, server) =>
               exists j, 0 <= j < l
                 /\ k = cyclic l (next mod l) j
                 /\ servers !! k = Some server
                 /\ eligible CanAcceptConnection server = true
                 /\ forall j' server', 0 <= j' < j ->
                      servers !! cyclic l (next mod l) j' = Some server' ->
                      eligible CanAcceptConnection server' = false
           | None =>
               Forall (fun server => eligible CanAcceptConnection server = false) servers
           end).
Proof.
  intros servers l next Hl. unfold algorithm.NextServer. fold servers. fold l. fold next.
  destruct (Nat.eqb_spec (length servers) 0) as [H0|Hpos].
  - exists None, pool. split; [done|]. split; [done|].
    split; [done|]. intros Hne. destruct servers; [done|]. simpl in H0. lia.
  - eexists _, _. split; [done|].
    split; [apply algorithm.GetBackends_Set|].
    split; [by intros Hnil; subst l; rewrite Hnil in Hpos|].
    intros _. split; [apply algorithm.GetCurrentIndex_Set|].
    assert (0 < l) as Hl0 by lia.
    pose proof (Z.mod_pos_bound next l Hl0) as Hidx.
    pose proof (NextServer_scan_spec CanAcceptConnection servers (next mod l) Hl Hidx
                  (length servers) 0 ltac:(lia) ltac:(lia)) as Hscan.
    fold l in Hscan.
    destruct (algorithm.NextServer_scan _ _ _ _ _ _) as [[k server]|].
    + destruct Hscan as (j & Hj & ?). exists j. split; [lia|done].
    + apply Forall_lookup. intros k server Hk.
      assert (k < Z.to_nat l)%nat as Hlt by (apply lookup_lt_Some in Hk; lia).
      destruct (cyclic_onto l (next mod l) k Hl0 Hlt) as (j & Hj & Hc).
      apply (Hscan j); [lia|]. by rewrite Hc.
Qed.

Lemma RoundRobin_NextServer_spec_witness :
  exists r pool',
    algorithm.NextServer Examples.CanAcceptConnection (Examples.three_pool 6) = (r, pool')
    /\ algorithm.GetCurrentIndex pool' = 7
    /\ fst <$> r = Some 1%nat.
Proof.
  destruct (RoundRobin_NextServer_spec Examples.CanAcceptConnection (Examples.three_pool 6))
    as (r & pool' & Hcall & _ & _ & Hspec).
  - simpl. lia.
  - exists r, pool'. split; [exact Hcall|].
    destruct (Hspec ltac:(discriminate)) as [Hcur _].
    split; [exact Hcur|].
    vm_compute in Hcall. inversion Hcall. reflexivity.
Defined.

(** ** C7: the even split of round-robin *)

(** C7, refuted as stated.  Three backends, all alive and idle, cursor at
    [2^64 - 2]: the next three calls select the positions 0, 0 and 1, since
    the cursor wraps from [2^64 - 1] to 0 and 3 does not divide [2^64].  The
    first backend is selected twice and the third not at all. *)
Lemma RoundRobin_even_split_counterexample :
  Forall (fun server => eligible Examples.CanAcceptConnection server = true)
         (algorithm.GetBackends (Examples.three_pool (2 ^ 64 - 2)))
  /\ selected_positions
       (fst (algorithm.NextServer_calls Examples.CanAcceptConnection (1 * 3)
               (Examples.three_pool (2 ^ 64 - 2))))
     = [0; 0; 1]%nat
  /\ times_selected 0
       (fst (algorithm.NextServer_calls Examples.CanAcceptConnection (1 * 3)
               (Examples.three_pool (2 ^ 64 - 2))))
     = 2%nat
  /\ times_selected 2
       (fst (algorithm.NextServer_calls Examples.CanAcceptConnection (1 * 3)
               (Examples.three_pool (2 ^ 64 - 2))))
     = 0%nat.
Proof.
  split; [repeat constructor|]. by vm_compute.
Qed.

(** C7, as amended.  In a round-robin pool of [N] backends that are all
    alive and able to accept a connection, [k * N] consecutive calls of
    [NextServer] select each of the [N] backends exactly [k] times, provided
    the 64-bit cursor does not wrap around during these calls
    ([c + k * N < 2^64] for the cursor [c] before the first call). *)
Theorem RoundRobin_even_split (CanAcceptConnection : algorithm.Server -> bool)
        {P : Type} `{algorithm.ServerPool P} (pool : P) (k : nat) :
  let servers := algorithm.GetBackends pool in
  let N := length servers in
  let c := algorithm.GetCurrentIndex pool in
  Z.of_nat N < 2 ^ 63 ->
  Forall (fun server => algorithm.Alive server = true
                        /\ CanAcceptConnection server = true) servers ->
  0 <= c -> c + Z.of_nat (k * N) < 2 ^ 64 ->
  forall i, (i < N)%nat ->
    times_selected i (fst (algorithm.NextServer_calls CanAcceptConnection (k * N) pool)) = k.
Proof.
  intros servers N c HN Hall Hc Hwrap i Hi. unfold times_selected.
  rewrite (NextServer_calls_positions CanAcceptConnection (k * N) pool); try done.
  - fold servers. fold N. apply count_occ_cycles. done.
  - fold servers. fold N. lia.
  - eapply Forall_impl; [exact Hall|]. intros server [Ha Hb].
    unfold eligible. simpl. by rewrite Ha, Hb.
Qed.

Lemma RoundRobin_even_split_witness :
  times_selected 2
    (fst (algorithm.NextServer_calls Examples.CanAcceptConnection (2 * 3)
            (Examples.three_pool 4)))
  = 2%nat.
Proof.
  change (2 * 3)%nat
    with (2 * length (algorithm.GetBackends (Examples.three_pool 4)))%nat.
  apply (RoundRobin_even_split Examples.CanAcceptConnection (Examples.three_pool 4) 2).
  - simpl. lia.
  - repeat constructor.
  - simpl. lia.
  - simpl. lia.
  - simpl. lia.
Defined.

(** ** C8: [RemoveBackend] *)

(** C8.  [RemoveBackend u] returns an error exactly when no backend of the
    pool has the URL [u]; on success the slice is the previous one without
    the first backend that has the URL [u], the other entries in their
    order; on error the slice is unchanged; in both cases no backend record
    is modified. *)
Theorem RemoveBackend_spec `{NetURL} (backendURL : string) (s : pool.ServerPool) :
  exists err s',
    pool.RemoveBackend backendURL s = (err, s')
    /\ (is_Some err <-> ~ exists p, p ∈ pool.backends s /\ has_URL s backendURL p)
    /\ (err = None ->
        exists before p after,
          pool.backends s = before ++ p :: after
          /\ has_URL s backendURL p
          /\ Forall (fun q => ~ has_URL s backendURL q) before
          /\ pool.backends s' = before ++ after)
    /\ (is_Some err -> s' = s)
    /\ pool.mem s' = pool.mem s.
Proof.
  assert ((exists p, p ∈ pool.backends s /\ has_URL s backendURL p)
          \/ ~ (exists p, p ∈ pool.backends s /\ has_URL s backendURL p)) as [Hsome|Hnone].
  { destruct (url_Parse backendURL) as [url|] eqn:Hparse.
    - destruct (range_find (pool.url_is s (URL_String url)) (pool.backends s)) as [i|] eqn:Hfind.
      + left. apply range_find_Some in Hfind as (p & Hp & Hmatch & _).
        exists p. split; [apply list_elem_of_lookup; eauto|].
        by apply (has_URL_url_is s backendURL url).
      + right. intros (p & Hin & Hhas). apply range_find_None in Hfind.
        rewrite Forall_forall in Hfind. specialize (Hfind p Hin).
        apply (has_URL_url_is s backendURL url) in Hhas; [|done]. simpl in Hfind. congruence.
    - right. intros (p & _ & url & b & Hparse' & _). congruence. }
  - destruct (RemoveBackend_found backendURL s Hsome)
      as (before & p & after & Hbs & Hhas & Hbefore & ->).
    eexists _, _. split; [done|]. split; [|split; [|split]].
    + split; [by intros [? ?]|done].
    + intros _. exists before, p, after. done.
    + by intros [? ?].
    + done.
  - destruct (RemoveBackend_not_found backendURL s Hnone) as (err & ->).
    eexists _, _. split; [done|]. split; [|split; [|split]]; done.
Qed.

Lemma RemoveBackend_spec_witness :
  exists s',
    pool.RemoveBackend Examples.b2 (Examples.three_pool 0) = (None, s')
    /\ pool.backends s' = [0; 2]%nat.
Proof.
  destruct (RemoveBackend_spec (H := Examples.plain_url) Examples.b2 (Examples.three_pool 0))
    as (err & s' & Hcall & _ & _ & _ & _).
  exists s'. vm_compute in Hcall. inversion Hcall; subst. split; reflexivity.
Defined.

(** ** C9: [UpdateBackends] *)

(** When some entry names the backend, the weight left in it is that of
    such an entry and no later entry names the backend. *)
Lemma configured_Weight_last `{NetURL} (s : pool.ServerPool) (p : nat)
      (configs : list config.BackendConfig) (w0 : Z) :
  (exists cfg, cfg ∈ configs /\ resolve s cfg = Some p) ->
  exists before cfg after,
    configs = before ++ cfg :: after
    /\ resolve s cfg = Some p
    /\ Forall (fun cfg' => resolve s cfg' <> Some p) after
    /\ configured_Weight s p configs w0 = config.Weight cfg.
Proof.
  induction configs as [|c configs IH] using rev_ind; intros (cfg & Hin & Hres).
  - by apply elem_of_nil in Hin.
  - unfold configured_Weight. rewrite foldl_app. simpl.
    destruct (bool_decide (resolve s c = Some p)) eqn:Hc.
    + apply bool_decide_eq_true in Hc. exists configs, c, []. by repeat split.
    + apply bool_decide_eq_false in Hc.
      apply elem_of_app in Hin as [Hin|Hin].
      * destruct IH as (before & cfg' & after & -> & Hres' & Hafter & Hw); [eauto|].
        exists before, cfg', (after ++ [c]). rewrite <- app_assoc. split; [done|].
        split; [done|]. split; [|exact Hw].
        apply Forall_app. split; [done|]. by constructor.
      * apply list_elem_of_singleton in Hin. congruence.
Qed.

(** C9, refuted as stated.  The pool holds [b1] with weight 1; updating it
    with a configuration that lists [b1] with weight 5 keeps the record (the
    same address, the same count) but leaves the weight 5 in it. *)
Lemma UpdateBackends_counterexample :
  pool.Weight <$> pool.mem Examples.idle_pool = [1]
  /\ fst (pool.UpdateBackends [config.mkBackendConfig Examples.b1 5 0] Examples.idle_pool)
     = None
  /\ pool.backends
       (snd (pool.UpdateBackends [config.mkBackendConfig Examples.b1 5 0] Examples.idle_pool))
     = pool.backends Examples.idle_pool
  /\ pool.Weight
       <$> pool.mem
             (snd (pool.UpdateBackends [config.mkBackendConfig Examples.b1 5 0]
                     Examples.idle_pool))
     = [5].
Proof. by vm_compute. Qed.

(** C9, as amended.  When every configured URL parses, [UpdateBackends]
    succeeds and the new slice has one entry per configuration entry, in
    the order of the configuration.  For an entry whose URL a backend of
    the pool already has, the entry of the slice is that same backend
    record, with its connection count, alive flag, current weight, limit and
    proxy unchanged, and its [Weight] set to the configured weight (that of
    the last entry naming the backend).  For an entry whose URL no backend
    has, the entry of the slice is a newly allocated backend, alive, with
    the configured weight and a count of zero.  A backend of the old pool
    that no entry names is not in the new slice. *)
Theorem UpdateBackends_spec `{NetURL} (configs : list config.BackendConfig)
        (s : pool.ServerPool) :
  Pool_wf s ->
  Forall (fun cfg => is_Some (url_Parse (config.URL cfg))) configs ->
  exists s',
    pool.UpdateBackends configs s = (None, s')
    /\ length (pool.backends s') = length configs
    /\ (forall i cfg, configs !! i = Some cfg ->
          match resolve s cfg with
          | Some p =>
              pool.backends s' !! i = Some p
              /\ exists b before cfg' after,
                   pool.mem s !! p = Some b
                   /\ pool.mem s' !! p = Some (pool.with_Weight (config.Weight cfg') b)
                   /\ configs = before ++ cfg' :: after
                   /\ resolve s cfg' = Some p
                   /\ Forall (fun cfg'' => resolve s cfg'' <> Some p) after
          | None =>
              exists p url,
                url_Parse (config.URL cfg) = Some url
                /\ pool.backends s' !! i = Some p
                /\ (length (pool.mem s) <= p)%nat
                /\ pool.mem s' !! p = Some (fresh_Backend url cfg)
          end)
    /\ (forall p, p ∈ pool.backends s' -> (p < length (pool.mem s))%nat ->
          exists cfg, cfg ∈ configs /\ resolve s cfg = Some p).
Proof.
  intros Hwf Hparse.
  destruct (UpdateBackends_loop_spec s configs Hwf Hparse (pool.mem s) []
              (mem_rel_refl s) ltac:(lia))
    as (m' & added & Hloop & Hlen & Hrel' & _ & _ & Hweight & Hadded).
  unfold pool.UpdateBackends. rewrite Hloop. simpl.
  eexists. split; [done|]. simpl. split; [done|].
  assert (forall i cfg, configs !! i = Some cfg ->
            match resolve s cfg with
            | Some p => added !! i = Some p
            | None => exists p, added !! i = Some p /\ (length (pool.mem s) <= p)%nat
            end) as Hpos.
  { intros i cfg Hi. specialize (Hadded i cfg Hi). destruct (resolve s cfg); [done|].
    destruct Hadded as (q & url & _ & ? & ? & _). eauto. }
  split.
  - intros i cfg Hi. specialize (Hadded i cfg Hi).
    destruct (resolve s cfg) as [p|] eqn:Hres; [|done].
    split; [done|].
    assert (exists b, pool.mem s !! p = Some b) as [b Hb].
    { unfold resolve in Hres. destruct (url_Parse (config.URL cfg)); [|done].
      simpl in Hres. apply find_backend_Some in Hres as [_ Hmatch].
      apply url_is_true in Hmatch as (b & Hb & _). eauto. }
    destruct (configured_Weight_last s p configs (pool.Weight b))
      as (before & cfg' & after & Hconfigs & Hres' & Hafter & Hw).
    { exists cfg. split; [|done]. apply list_elem_of_lookup. eauto. }
    exists b, before, cfg', after. split; [done|]. split; [|done].
    rewrite <- Hw. apply Hweight; [done|]. rewrite Hb. by destruct b.
  - intros p Hin Hold. apply list_elem_of_lookup in Hin as [i Hi].
    assert (i < length configs)%nat as Hlt by (apply lookup_lt_Some in Hi; lia).
    apply lookup_lt_is_Some_2 in Hlt as [cfg Hcfg].
    exists cfg. split; [apply list_elem_of_lookup; eauto|].
    specialize (Hpos i cfg Hcfg). destruct (resolve s cfg) as [q|].
    + congruence.
    + destruct Hpos as (q & Hq & Hge). rewrite Hi in Hq. inversion Hq; subst. lia.
Qed.

Lemma UpdateBackends_spec_witness :
  exists s',
    pool.UpdateBackends
      [config.mkBackendConfig Examples.b3 7 0; config.mkBackendConfig "http://b4:8080" 2 0]
      (Examples.three_pool 0) = (None, s')
    /\ pool.backends s' = [2; 3]%nat.
Proof.
  destruct (UpdateBackends_spec (H := Examples.plain_url)
              [config.mkBackendConfig Examples.b3 7 0;
               config.mkBackendConfig "http://b4:8080" 2 0]
              (Examples.three_pool 0))
    as (s' & Hcall & _).
  - repeat constructor; simpl; lia.
  - repeat constructor; by eexists.
  - exists s'. vm_compute in Hcall. inversion Hcall; subst. split; reflexivity.
Defined.

(** ** C10: the admin handler of backends *)

(** C10.  When the request names a service that is found and its [path]
    parameter is non-empty and is the path of one of the locations of that
    service, [handleBackends] answers 404 "Location not found" and makes no
    call on any server pool; the manager is left as it is.  Whenever the
    handler does call [GetBackends], [AddBackend] or [RemoveBackend], the
    [path] parameter is empty and the service found has exactly one
    location. *)
Theorem handleBackends_named_location `{NetURL}
        (json_Decode_BackendConfig : string -> error + config.BackendConfig)
        (json_Decode_URL : string -> error + string)
        (a : service.Manager) (r : admin.Request) :
  let serviceName := admin.Query_Get r "service_name" in
  let serviceLocation := admin.Query_Get r "path" in
  let outcome := admin.handleBackends json_Decode_BackendConfig json_Decode_URL a r in
  (forall i srvc,
      serviceName <> "" ->
      service.GetServiceByName a serviceName = Some (i, srvc) ->
      serviceLocation <> "" ->
      (exists loc, loc ∈ service.Locations srvc /\ service.Path loc = serviceLocation) ->
      outcome = admin.mkOutcome a [admin.http_Error "Location not found" 404] [])
  /\ (admin.Calls outcome <> [] ->
      exists i srvc,
        service.GetServiceByName a serviceName = Some (i, srvc)
        /\ serviceLocation = ""
        /\ length (service.Locations srvc) = 1%nat).
Proof.
  intros serviceName serviceLocation outcome. subst outcome.
  unfold admin.handleBackends. fold serviceName. fold serviceLocation. split.
  - intros i srvc Hname Hsrvc Hpath (loc & Hin & Hloc).
    destruct (String.eqb_spec serviceName "") as [|_]; [done|].
    rewrite Hsrvc.
    destruct (range_find _ (service.Locations srvc)) as [j|] eqn:Hfind.
    + rewrite bool_decide_eq_false_2 by done. done.
    + apply range_find_None in Hfind. rewrite Forall_forall in Hfind.
      specialize (Hfind loc Hin). simpl in Hfind.
      apply String.eqb_neq in Hfind. done.
  - destruct (String.eqb_spec serviceName "") as [|_]; [done|].
    destruct (service.GetServiceByName a serviceName) as [[i srvc]|]; [|done].
    destruct (bool_decide _ && String.eqb serviceLocation "") eqn:Hcond; [|done].
    apply andb_prop in Hcond as [_ Hempty]. apply String.eqb_eq in Hempty.
    destruct (Nat.eqb_spec (length (service.Locations srvc)) 1) as [Hone|]; [|done].
    intros _. exists i, srvc. done.
Qed.

Lemma handleBackends_named_location_witness :
  admin.handleBackends (fun _ => inl (errors_New "EOF")) (fun _ => inl (errors_New "EOF"))
    Examples.manager Examples.get_api_backends
  = admin.mkOutcome Examples.manager [admin.http_Error "Location not found" 404] [].
Proof.
  destruct (handleBackends_named_location (H := Examples.plain_url)
              (fun _ => inl (errors_New "EOF")) (fun _ => inl (errors_New "EOF"))
              Examples.manager Examples.get_api_backends) as [Hnamed _].
  apply (Hnamed 0%nat (service.mkServiceInfo "backend-api"
                         [service.mkLocationInfo "/api/" (Examples.three_pool 0)])).
  - discriminate.
  - reflexivity.
  - discriminate.
  - eexists. split; [left|reflexivity].
Defined.

(** * Further properties *)

(** ** Snapshots, additions and removals *)

Lemma omap_lookup_Forall {A B : Type} (f : A -> option B) (l : list A) (i : nat) :
  Forall (fun x => is_Some (f x)) l -> omap f l !! i = l !! i ≫= f.
Proof.
  intros Hall. revert i. induction Hall as [|x l [y Hy] _ IH]; intros i; [done|].
  cbn [omap list_omap]. rewrite Hy. destruct i as [|i]; simpl; [done|]. apply IH.
Qed.

Lemma omap_length_Forall {A B : Type} (f : A -> option B) (l : list A) :
  Forall (fun x => is_Some (f x)) l -> length (omap f l) = length l.
Proof.
  induction 1 as [|x l [y Hy] _ IH]; [done|].
  cbn [omap list_omap]. rewrite Hy. simpl. by rewrite IH.
Qed.

Lemma omap_ext_Forall {A B : Type} (f g : A -> option B) (l : list A) :
  Forall (fun x => f x = g x) l -> omap f l = omap g l.
Proof.
  induction 1 as [|x l Hx _ IH]; [done|].
  cbn [omap list_omap]. by rewrite Hx, IH.
Qed.

Section SnapshotProperties.
Context `{NetURL}.

Lemma GetBackends_eq (s : pool.ServerPool) :
  pool.GetBackends s = omap (fun p => Server_of <$> pool.mem s !! p) (pool.backends s).
Proof.
  unfold pool.GetBackends. apply omap_ext_Forall, Forall_forall. intros p _.
  by destruct (pool.mem s !! p).
Qed.

Lemma Pool_wf_is_Some (s : pool.ServerPool) :
  Pool_wf s ->
  Forall (fun p => is_Some (Server_of <$> pool.mem s !! p)) (pool.backends s).
Proof.
  intros Hwf. eapply Forall_impl; [exact Hwf|]. intros p Hp. simpl in Hp.
  apply lookup_lt_is_Some_2 in Hp as [b ->]. by eexists.
Qed.
End SnapshotProperties.

(** X1.  The snapshot of a pool lists the backends of its slice, entry by
    entry and in the order of the slice: it has the length of the slice, and
    its [i]-th server copies the URL, weights, count, limit and alive flag of
    the backend that the [i]-th pointer designates. *)
Theorem GetBackends_snapshot `{NetURL} (s : pool.ServerPool) :
  Pool_wf s ->
  length (pool.GetBackends s) = length (pool.backends s)
  /\ forall i,
       pool.GetBackends s !! i
       = p ← pool.backends s !! i; Server_of <$> pool.mem s !! p.
Proof.
  intros Hwf. rewrite GetBackends_eq. split.
  - apply omap_length_Forall. by apply Pool_wf_is_Some.
  - intros i. apply omap_lookup_Forall. by apply Pool_wf_is_Some.
Qed.

Lemma GetBackends_snapshot_witness :
  length (pool.GetBackends (Examples.three_pool 0)) = 3%nat
  /\ algorithm.URL <$> pool.GetBackends (Examples.three_pool 0) !! 1%nat = Some Examples.b2.
Proof.
  destruct (GetBackends_snapshot (H := Examples.plain_url) (Examples.three_pool 0))
    as [Hlen Hi].
  - repeat constructor; simpl; lia.
  - split; [exact Hlen|]. rewrite Hi. reflexivity.
Defined.

(** X2.  [AddBackend] fails exactly when the URL does not parse, and then
    leaves the pool as it is.  Otherwise it appends one backend: the
    snapshot afterwards is the snapshot before followed by one server with
    the parsed URL, the configured weight, no connections, alive, and as
    limit the configured one or, when that is zero, the default of the pool;
    the cursor is unchanged and the pointers stay valid. *)
Theorem AddBackend_snapshot `{NetURL} (cfg : config.BackendConfig) (s : pool.ServerPool) :
  Pool_wf s ->
  match url_Parse (config.URL cfg) with
  | None => pool.AddBackend cfg s = (Some (url_Error (config.URL cfg)), s)
  | Some url =>
      exists s',
        pool.AddBackend cfg s = (None, s')
        /\ Pool_wf s'
        /\ pool.current s' = pool.current s
        /\ pool.GetBackends s'
           = pool.GetBackends s ++ [Server_of (added_Backend s url cfg)]
  end.
Proof.
  intros Hwf. unfold pool.AddBackend.
  destruct (url_Parse (config.URL cfg)) as [url|]; [|done].
  eexists. split; [done|].
  change (pool.mkBackend url "" true _ 0 _ 0 _) with (added_Backend s url cfg).
  split; [|split; [done|]].
  - unfold Pool_wf. simpl. rewrite length_app. simpl. apply Forall_app. split.
    + eapply Forall_impl; [exact Hwf|]. intros p Hp. simpl in *. lia.
    + constructor; [lia|done].
  - rewrite !GetBackends_eq. simpl. rewrite omap_app. f_equal.
    + apply omap_ext_Forall. eapply Forall_impl; [exact Hwf|]. intros p Hp.
      simpl in *. by rewrite lookup_app_l.
    + simpl. by rewrite list_lookup_middle.
Qed.

Lemma AddBackend_snapshot_witness :
  exists s',
    pool.AddBackend (config.mkBackendConfig "http://b4:8080" 2 0) (Examples.three_pool 0)
    = (None, s')
    /\ algorithm.MaxConnections <$> pool.GetBackends s' = [10; 10; 10; 1000].
Proof.
  pose proof (AddBackend_snapshot (H := Examples.plain_url)
                (config.mkBackendConfig "http://b4:8080" 2 0) (Examples.three_pool 0)) as Hadd.
  destruct Hadd as (s' & Hcall & _ & _ & Hsnap).
  - repeat constructor; simpl; lia.
  - exists s'. split; [exact Hcall|]. rewrite Hsnap. reflexivity.
Defined.

Lemma range_find_app {A : Type} (f : A -> bool) (l1 l2 : list A) :
  range_find f (l1 ++ l2)
  = match range_find f l1 with
    | Some i => Some i
    | None => Nat.add (length l1) <$> range_find f l2
    end.
Proof.
  induction l1 as [|x l1 IH]; simpl.
  - by destruct (range_find f l2).
  - destruct (f x); [done|]. rewrite IH.
    destruct (range_find f l1); simpl; [done|]. by destruct (range_find f l2).
Qed.

Section AddRemoveProperties.
Context `{NetURL}.

Lemma count_URL_0 (s : pool.ServerPool) (u : string) :
  count_URL s u = 0%nat <-> Forall (fun p => pool.url_is s u p = false) (pool.backends s).
Proof.
  unfold count_URL. induction (pool.backends s) as [|p l IH]; simpl; [done|].
  destruct (pool.url_is s u p) eqn:Hp; simpl.
  - split; [done|]. intros Hall. apply Forall_cons in Hall as [? _]. congruence.
  - rewrite IH. split; [by constructor|]. by intros [_ ?]%Forall_cons.
Qed.

Lemma url_is_AddBackend_old (s : pool.ServerPool) (b : pool.Backend) (bs : list nat)
      (u : string) (p : nat) :
  (p < length (pool.mem s))%nat ->
  pool.url_is (pool.mkServerPool (pool.mem s ++ [b]) bs (pool.current s)
                 (pool.algorithm s) (pool.maxConnections s)) u p
  = pool.url_is s u p.
Proof. intros Hp. unfold pool.url_is. simpl. by rewrite lookup_app_l. Qed.

Lemma url_is_AddBackend_new (s : pool.ServerPool) (b : pool.Backend) (bs : list nat)
      (u : string) :
  pool.url_is (pool.mkServerPool (pool.mem s ++ [b]) bs (pool.current s)
                 (pool.algorithm s) (pool.maxConnections s)) u (length (pool.mem s))
  = String.eqb (URL_String (pool.URL b)) u.
Proof. unfold pool.url_is. simpl. by rewrite list_lookup_middle. Qed.

Lemma range_find_AddBackend (s : pool.ServerPool) (b : pool.Backend) (u : string) :
  Pool_wf s ->
  range_find
    (pool.url_is (pool.mkServerPool (pool.mem s ++ [b])
                    (pool.backends s ++ [length (pool.mem s)]) (pool.current s)
                    (pool.algorithm s) (pool.maxConnections s)) u)
    (pool.backends s ++ [length (pool.mem s)])
  = match range_find (pool.url_is s u) (pool.backends s) with
    | Some i => Some i
    | None => if String.eqb (URL_String (pool.URL b)) u
              then Some (length (pool.backends s)) else None
    end.
Proof.
  intros Hwf. rewrite range_find_app.
  rewrite (range_find_ext _ (pool.url_is s u)).
  - destruct (range_find (pool.url_is s u) (pool.backends s)); [done|].
    simpl. rewrite url_is_AddBackend_new.
    destruct (String.eqb _ u); simpl; [f_equal; lia|done].
  - eapply Forall_impl; [exact Hwf|]. intros p Hp. by apply url_is_AddBackend_old.
Qed.
End AddRemoveProperties.

(** X3.  Adding a backend whose URL no backend of the pool has, and then
    removing that URL, gives back the slice and the snapshot the pool had:
    neither call fails, and it is the added backend that is removed. *)
Theorem AddBackend_RemoveBackend `{NetURL} (cfg : config.BackendConfig)
        (s : pool.ServerPool) (url : url_URL) :
  Pool_wf s ->
  url_Parse (config.URL cfg) = Some url ->
  count_URL s (URL_String url) = 0%nat ->
  exists s1 s2,
    pool.AddBackend cfg s = (None, s1)
    /\ pool.RemoveBackend (config.URL cfg) s1 = (None, s2)
    /\ pool.backends s2 = pool.backends s
    /\ pool.GetBackends s2 = pool.GetBackends s.
Proof.
  intros Hwf Hparse Hcount. unfold pool.AddBackend. rewrite Hparse.
  eexists _, _. split; [done|]. unfold pool.RemoveBackend. rewrite Hparse.
  cbn [pool.backends]. rewrite range_find_AddBackend by done.
  apply count_URL_0 in Hcount. apply range_find_None in Hcount. rewrite Hcount.
  cbn [pool.URL]. rewrite String.eqb_refl.
  rewrite take_app_length, drop_ge by (rewrite length_app; simpl; lia).
  rewrite app_nil_r.
  split; [done|]. split; [done|].
  rewrite !GetBackends_eq. simpl. apply omap_ext_Forall.
  eapply Forall_impl; [exact Hwf|]. intros p Hp. simpl in *. by rewrite lookup_app_l.
Qed.

Lemma AddBackend_RemoveBackend_witness :
  exists s1 s2,
    pool.AddBackend (config.mkBackendConfig "http://b4:8080" 2 0) (Examples.three_pool 0)
    = (None, s1)
    /\ pool.RemoveBackend "http://b4:8080" s1 = (None, s2)
    /\ pool.backends s2 = pool.backends (Examples.three_pool 0)
    /\ pool.GetBackends s2 = pool.GetBackends (Examples.three_pool 0).
Proof.
  apply (AddBackend_RemoveBackend (H := Examples.plain_url)
           (config.mkBackendConfig "http://b4:8080" 2 0) (Examples.three_pool 0)
           "http://b4:8080").
  - repeat constructor; simpl; lia.
  - reflexivity.
  - reflexivity.
Defined.

(** X4.  After a successful [AddBackend], [GetBackendByURL] of the printed
    URL finds a backend printing that URL; when no backend of the pool had
    the URL before, it finds the added backend itself. *)
Theorem AddBackend_GetBackendByURL `{NetURL} (cfg : config.BackendConfig)
        (s : pool.ServerPool) (url : url_URL) :
  Pool_wf s ->
  url_Parse (config.URL cfg) = Some url ->
  exists s' p b,
    pool.AddBackend cfg s = (None, s')
    /\ pool.GetBackendByURL (URL_String url) s' = Some p
    /\ pool.mem s' !! p = Some b
    /\ pool.GetURL b = URL_String url
    /\ (count_URL s (URL_String url) = 0%nat ->
        p = length (pool.mem s) /\ b = added_Backend s url cfg).
Proof.
  intros Hwf Hparse. unfold pool.AddBackend. rewrite Hparse.
  change (pool.mkBackend url "" true _ 0 _ 0 _) with (added_Backend s url cfg).
  pose proof (range_find_AddBackend s (added_Backend s url cfg) (URL_String url) Hwf) as Hrf.
  change (pool.URL (added_Backend s url cfg)) with url in Hrf.
  rewrite String.eqb_refl in Hrf.
  destruct (range_find (pool.url_is s (URL_String url)) (pool.backends s)) as [i|] eqn:Hfind.
  - apply range_find_Some in Hfind as (p & Hp & Hmatch & Hbefore).
    apply url_is_true in Hmatch as (b & Hb & Hu).
    eexists _, p, b. split; [done|].
    unfold pool.GetBackendByURL, pool.find_backend. cbn [pool.backends pool.mem].
    rewrite Hrf. simpl.
    rewrite lookup_app_l by (by eapply lookup_lt_Some). rewrite Hp.
    split; [done|]. split; [rewrite lookup_app_l; [done|by eapply lookup_lt_Some]|].
    split; [done|]. intros Hcount. apply count_URL_0 in Hcount.
    rewrite Forall_forall in Hcount.
    assert (pool.url_is s (URL_String url) p = false) as Hfalse
        by (apply Hcount, list_elem_of_lookup; eauto).
    assert (pool.url_is s (URL_String url) p = true) as Htrue
        by (apply url_is_true; eauto).
    congruence.
  - eexists _, (length (pool.mem s)), (added_Backend s url cfg). split; [done|].
    unfold pool.GetBackendByURL, pool.find_backend. cbn [pool.backends pool.mem].
    rewrite Hrf. simpl.
    rewrite list_lookup_middle by done.
    rewrite list_lookup_middle by done. done.
Qed.

Lemma AddBackend_GetBackendByURL_witness :
  exists s' p,
    pool.AddBackend (config.mkBackendConfig "http://b4:8080" 2 0) (Examples.three_pool 0)
    = (None, s')
    /\ pool.GetBackendByURL "http://b4:8080" s' = Some p
    /\ p = 3%nat.
Proof.
  destruct (AddBackend_GetBackendByURL (H := Examples.plain_url)
              (config.mkBackendConfig "http://b4:8080" 2 0) (Examples.three_pool 0)
              "http://b4:8080")
    as (s' & p & b & Hadd & Hget & _ & _ & Hnew).
  - repeat constructor; simpl; lia.
  - reflexivity.
  - exists s', p. split; [exact Hadd|]. split; [exact Hget|].
    destruct (Hnew eq_refl) as [Hp _]. exact Hp.
Defined.

(** ** Valid pointers *)

Section WfProperties.
Context `{NetURL}.

Lemma UpdateBackends_loop_wf (s : pool.ServerPool) (configs : list config.BackendConfig) :
  Pool_wf s ->
  forall m newBackends,
    (length (pool.mem s) <= length m)%nat ->
    Forall (fun p => (p < length m)%nat) newBackends ->
    (length m <= length (snd (fst (pool.UpdateBackends_loop s configs m newBackends))))%nat
    /\ Forall (fun p => (p < length (snd (fst (pool.UpdateBackends_loop s configs m
                                                newBackends))))%nat)
              (snd (pool.UpdateBackends_loop s configs m newBackends)).
Proof.
  intros Hwf. induction configs as [|cfg configs IH]; intros m newBackends Hlen Hnb;
    [by split|].
  cbn [pool.UpdateBackends_loop]. unfold pool.UpdateBackends_body.
  destruct (url_Parse (config.URL cfg)) as [url|]; [|by split].
  destruct (pool.find_backend (pool.with_mem m s) (URL_String url)) as [p|] eqn:Hfind.
  - apply find_backend_Some in Hfind as [Hin _]. simpl in Hin.
    assert (p < length (pool.mem s))%nat as Hp
        by (unfold Pool_wf in Hwf; rewrite Forall_forall in Hwf; by apply Hwf).
    destruct (IH (alter (pool.with_Weight (config.Weight cfg)) p m) (newBackends ++ [p]))
      as [Hle Hall].
    + rewrite length_alter. lia.
    + rewrite length_alter. apply Forall_app. split; [done|]. constructor; [lia|done].
    + rewrite length_alter in Hle. by split.
  - match goal with |- context [pool.UpdateBackends_loop s configs (m ++ [?b]) _] =>
      destruct (IH (m ++ [b]) (newBackends ++ [length m])) as [Hle Hall] end.
    + rewrite length_app. simpl. lia.
    + rewrite length_app. simpl. apply Forall_app. split.
      * eapply Forall_impl; [exact Hnb|]. intros q Hq. simpl in Hq. lia.
      * constructor; [lia|done].
    + rewrite length_app in Hle. simpl in Hle. split; [lia|done].
Qed.

Lemma Pool_wf_with_mem (s : pool.ServerPool) (m : list pool.Backend) :
  Pool_wf s -> (length (pool.mem s) <= length m)%nat -> Pool_wf (pool.with_mem m s).
Proof.
  intros Hwf Hlen. unfold Pool_wf. simpl.
  eapply Forall_impl; [exact Hwf|]. intros p Hp. simpl in Hp. lia.
Qed.

Lemma Pool_wf_GetNextPeer (s : pool.ServerPool) :
  Pool_wf s -> Pool_wf (snd (pool.GetNextPeer s)).
Proof.
  intros Hwf. unfold pool.GetNextPeer. simpl.
  by destruct (length (pool.backends s) =? 0)%nat.
Qed.
End WfProperties.

(** X5.  The pointers of the slice stay valid.  The pool that
    [NewServerPool] creates has only valid pointers, and every operation on
    the pool keeps them valid: [AddBackend], [RemoveBackend],
    [UpdateBackends] (on success and on error), [MarkBackendStatus],
    [GetNextPeer], [GetNextProxy], [SetCurrentIndex] and [UpdateConfig]. *)
Theorem Pool_wf_preserved `{NetURL} (s : pool.ServerPool) :
  Pool_wf pool.NewServerPool
  /\ (Pool_wf s ->
      (forall cfg, Pool_wf (snd (pool.AddBackend cfg s)))
      /\ (forall backendURL, Pool_wf (snd (pool.RemoveBackend backendURL s)))
      /\ (forall configs, Pool_wf (snd (pool.UpdateBackends configs s)))
      /\ (forall backendUrl alive, Pool_wf (pool.MarkBackendStatus backendUrl alive s))
      /\ Pool_wf (snd (pool.GetNextPeer s))
      /\ Pool_wf (snd (pool.GetNextProxy s))
      /\ (forall idx, Pool_wf (pool.SetCurrentIndex idx s))
      /\ (forall update, Pool_wf (pool.UpdateConfig update s))).
Proof.
  split; [by constructor|]. intros Hwf.
  split; [|split; [|split; [|split; [|split; [|split; [|split]]]]]].
  - intros cfg. unfold pool.AddBackend.
    destruct (url_Parse (config.URL cfg)) as [url|]; [|done].
    unfold Pool_wf. simpl. rewrite length_app. simpl. apply Forall_app. split.
    + eapply Forall_impl; [exact Hwf|]. intros p Hp. simpl in *. lia.
    + constructor; [lia|done].
  - intros backendURL. unfold pool.RemoveBackend.
    destruct (url_Parse backendURL) as [url|]; [|done].
    destruct (range_find _ (pool.backends s)) as [i|]; [|done].
    unfold Pool_wf in *. simpl. apply Forall_app. split.
    + by apply Forall_take.
    + by apply Forall_drop.
  - intros configs. unfold pool.UpdateBackends.
    destruct (UpdateBackends_loop_wf s configs Hwf (pool.mem s) [] ltac:(lia) ltac:(constructor))
      as [Hle Hall].
    destruct (pool.UpdateBackends_loop s configs (pool.mem s) []) as [[[err|] m] nb];
      simpl in *.
    + by apply Pool_wf_with_mem.
    + done.
  - intros backendUrl alive. unfold pool.MarkBackendStatus.
    destruct (range_find _ (pool.backends s)) as [i|]; [|done].
    destruct (pool.backends s !! i) as [p|]; [|done].
    apply Pool_wf_with_mem; [done|]. by rewrite length_alter.
  - by apply Pool_wf_GetNextPeer.
  - unfold pool.GetNextProxy. pose proof (Pool_wf_GetNextPeer s Hwf) as Hwf'.
    destruct (pool.GetNextPeer s) as [[p|] s1]; simpl in *; [|done].
    destruct (pool.mem s1 !! p); [|done].
    apply Pool_wf_with_mem; [done|]. by rewrite length_insert.
  - done.
  - intros update. unfold pool.UpdateConfig.
    destruct (pool.MaxConns update =? 0), (String.eqb (pool.Algorithm update) ""); done.
Qed.

Lemma Pool_wf_preserved_witness :
  Pool_wf (snd (pool.UpdateBackends
                  [config.mkBackendConfig Examples.b3 7 0;
                   config.mkBackendConfig "http://b4:8080" 2 0]
                  (Examples.three_pool 0))).
Proof.
  destruct (Pool_wf_preserved (H := Examples.plain_url) (Examples.three_pool 0))
    as [_ Hkeep].
  destruct Hkeep as (_ & _ & Hupdate & _).
  - repeat constructor; simpl; lia.
  - apply Hupdate.
Defined.

(** ** Removal, by the number of entries with a URL *)

(** X6.  For a URL that parses, [RemoveBackend] fails with "backend not
    found" exactly when no entry of the slice has the URL, and then changes
    nothing.  Otherwise it succeeds, the slice loses one entry, the number of
    entries with that URL goes down by one, and the number of entries with
    any other URL is unchanged. *)
Theorem RemoveBackend_count `{NetURL} (backendURL : string) (url : url_URL)
        (s : pool.ServerPool) :
  url_Parse backendURL = Some url ->
  let u := URL_String url in
  (count_URL s u = 0%nat ->
   pool.RemoveBackend backendURL s = (Some (errors_New "backend not found"), s))
  /\ (count_URL s u <> 0%nat ->
      exists s',
        pool.RemoveBackend backendURL s = (None, s')
        /\ S (length (pool.backends s')) = length (pool.backends s)
        /\ S (count_URL s' u) = count_URL s u
        /\ forall u', u' <> u -> count_URL s' u' = count_URL s u').
Proof.
  intros Hparse u. unfold pool.RemoveBackend. rewrite Hparse. fold u. split.
  - intros Hcount. apply count_URL_0, range_find_None in Hcount. by rewrite Hcount.
  - intros Hcount.
    destruct (range_find (pool.url_is s u) (pool.backends s)) as [i|] eqn:Hfind.
    + apply range_find_Some in Hfind as (p & Hp & Hmatch & Hbefore).
      eexists. split; [done|].
      assert (pool.backends s
              = take i (pool.backends s) ++ p :: drop (S i) (pool.backends s)) as Hsplit
          by (by rewrite take_drop_middle).
      unfold count_URL. cbn [pool.backends pool.with_backends].
      assert (forall u' l, List.filter (pool.url_is (pool.with_backends l s) u')
                           = List.filter (pool.url_is s u')) as Hsame by done.
      rewrite Hsame.
      set (l1 := take i (pool.backends s)) in *.
      set (l2 := drop (S i) (pool.backends s)) in *.
      split; [|split].
      * rewrite Hsplit, !length_app. simpl. lia.
      * rewrite Hsplit, !List.filter_app, !length_app. simpl.
        rewrite Hmatch. simpl. lia.
      * intros u' Hne. rewrite Hsame, Hsplit, !List.filter_app, !length_app. simpl.
        assert (pool.url_is s u' p = false) as ->; [|done].
        apply url_is_true in Hmatch as (b & Hb & Hu).
        unfold pool.url_is. rewrite Hb. apply String.eqb_neq. congruence.
    + apply range_find_None, count_URL_0 in Hfind. done.
Qed.

Lemma RemoveBackend_count_witness :
  exists s',
    pool.RemoveBackend Examples.b2 (Examples.three_pool 0) = (None, s')
    /\ S (count_URL s' Examples.b2) = count_URL (Examples.three_pool 0) Examples.b2.
Proof.
  destruct (RemoveBackend_count (H := Examples.plain_url) Examples.b2 Examples.b2
              (Examples.three_pool 0) eq_refl) as [_ Hsome].
  destruct Hsome as (s' & Hcall & _ & Hcount & _).
  - vm_compute. discriminate.
  - exists s'. split; [exact Hcall|exact Hcount].
Defined.

(** ** Marking a backend *)

Section MarkProperties.
Context `{NetURL}.

Lemma url_is_alter_Alive (s : pool.ServerPool) (alive : bool) (p : nat) (u : string)
      (q : nat) :
  pool.url_is (pool.with_mem (alter (pool.with_Alive alive) p (pool.mem s)) s) u q
  = pool.url_is s u q.
Proof.
  unfold pool.url_is. simpl. destruct (decide (p = q)) as [->|Hne].
  - rewrite list_lookup_alter_eq. by destruct (pool.mem s !! q).
  - by rewrite list_lookup_alter_ne.
Qed.

Lemma MarkBackendStatus_eq (backendUrl : url_URL) (alive : bool) (s : pool.ServerPool) :
  pool.MarkBackendStatus backendUrl alive s
  = match pool.find_backend s (URL_String backendUrl) with
    | Some p => pool.with_mem (alter (pool.with_Alive alive) p (pool.mem s)) s
    | None => s
    end.
Proof.
  unfold pool.MarkBackendStatus, pool.find_backend.
  destruct (range_find _ (pool.backends s)) as [i|]; simpl; [|done].
  by destruct (pool.backends s !! i).
Qed.

Lemma find_backend_alter_Alive (s : pool.ServerPool) (alive : bool) (p : nat) (u : string) :
  pool.find_backend (pool.with_mem (alter (pool.with_Alive alive) p (pool.mem s)) s) u
  = pool.find_backend s u.
Proof.
  unfold pool.find_backend. simpl.
  rewrite (range_find_ext _ (pool.url_is s u)); [done|].
  apply Forall_forall. intros q _. apply url_is_alter_Alive.
Qed.
End MarkProperties.

(** X7.  [MarkBackendStatus] changes nothing but alive flags: the slice, the
    cursor and, for every backend, the URL, weights, count and limit are
    kept.  The only flag it writes is that of the first backend of the slice
    that prints the URL, which afterwards holds the given value; when no
    backend prints the URL the pool is as before. *)
Theorem MarkBackendStatus_frame `{NetURL} (backendUrl : url_URL) (alive : bool)
        (s : pool.ServerPool) :
  let s' := pool.MarkBackendStatus backendUrl alive s in
  pool.backends s' = pool.backends s
  /\ pool.current s' = pool.current s
  /\ length (pool.mem s') = length (pool.mem s)
  /\ (forall q b, pool.mem s !! q = Some b ->
        exists a, pool.mem s' !! q = Some (pool.with_Alive a b)
                  /\ (pool.find_backend s (URL_String backendUrl) = Some q -> a = alive)
                  /\ (pool.find_backend s (URL_String backendUrl) <> Some q ->
                      a = pool.Alive b))
  /\ (pool.find_backend s (URL_String backendUrl) = None -> s' = s).
Proof.
  intros s'. subst s'. rewrite MarkBackendStatus_eq.
  destruct (pool.find_backend s (URL_String backendUrl)) as [p|].
  - simpl. split; [done|]. split; [done|]. split; [apply length_alter|].
    split; [|done]. intros q b Hq. destruct (decide (p = q)) as [->|Hne].
    + exists alive. rewrite list_lookup_alter_eq, Hq. split; [done|]. split; [done|].
      congruence.
    + exists (pool.Alive b). rewrite list_lookup_alter_ne, Hq by done.
      split; [by destruct b|]. split; [|done]. congruence.
  - repeat split; try done. intros q b Hq. exists (pool.Alive b).
    rewrite Hq. split; [by destruct b|]. by split.
Qed.

(** X8.  Marking the same URL twice is marking it once with the later
    value: the last write wins, and marking is idempotent. *)
Theorem MarkBackendStatus_last_wins `{NetURL} (backendUrl : url_URL)
        (alive1 alive2 : bool) (s : pool.ServerPool) :
  pool.MarkBackendStatus backendUrl alive2 (pool.MarkBackendStatus backendUrl alive1 s)
  = pool.MarkBackendStatus backendUrl alive2 s.
Proof.
  rewrite (MarkBackendStatus_eq backendUrl alive1 s).
  destruct (pool.find_backend s (URL_String backendUrl)) as [p|] eqn:Hfind; [|done].
  rewrite !MarkBackendStatus_eq, find_backend_alter_Alive, Hfind.
  unfold pool.with_mem. simpl. f_equal.
  rewrite list_alter_alter_eq. apply list_alter_ext; [|done].
  intros b _. by destruct b.
Qed.

(** ** The pool's own rotation *)

Section RotationProperties.
Context `{NetURL}.

Lemma GetNextPeer_eq (s : pool.ServerPool) :
  let next := wrap_uint64 (pool.current s + 1) in
  pool.GetNextPeer s
  = (pool.backends s !! cyclic (Z.of_nat (length (pool.backends s))) next 0,
     pool.with_current next s).
Proof.
  intros next. unfold pool.GetNextPeer. fold next. cbn [pool.backends pool.with_current].
  destruct (Nat.eqb_spec (length (pool.backends s)) 0) as [H0|Hpos].
  - f_equal. destruct (pool.backends s); [done|]. simpl in H0. lia.
  - unfold cyclic. by rewrite Z.add_0_r.
Qed.

Lemma GetNextPeer_calls_positions (n : nat) (s : pool.ServerPool) :
  let N := length (pool.backends s) in
  let c := pool.current s in
  0 <= c -> c + Z.of_nat n < 2 ^ 64 ->
  fst (pool.GetNextPeer_calls n s)
  = (fun i => pool.backends s !! i)
      <$> map (fun j => cyclic (Z.of_nat N) (c + 1) (Z.of_nat j)) (seq 0 n).
Proof.
  revert s. induction n as [|n IH]; intros s N c Hc Hn; [done|].
  cbn [pool.GetNextPeer_calls]. rewrite GetNextPeer_eq. fold c.
  rewrite wrap_uint64_id by (unfold is_uint64; lia).
  specialize (IH (pool.with_current (c + 1) s)). cbv zeta in IH.
  cbn [pool.with_current pool.backends pool.current] in IH.
  specialize (IH ltac:(lia) ltac:(lia)).
  destruct (pool.GetNextPeer_calls n (pool.with_current (c + 1) s)) as [rs s'].
  simpl in IH. cbn [fst seq map fmap list_fmap]. fold N. f_equal.
  rewrite IH, <- seq_shift, map_map.
  change (@map) with (@fmap list _). rewrite <- !list_fmap_compose.
  apply list_fmap_ext. intros _ j _. simpl. f_equal. unfold cyclic. f_equal. f_equal. lia.
Qed.

Lemma total_connections_insert (m : list pool.Backend) (p : nat) (b b' : pool.Backend) :
  m !! p = Some b ->
  total_connections (<[p := b']> m)
  = total_connections m - pool.ConnectionCount b + pool.ConnectionCount b'.
Proof.
  revert p. induction m as [|x m IH]; intros [|p] Hp; simpl in *; try done.
  - inversion Hp; subst. lia.
  - rewrite (IH p Hp). lia.
Qed.
End RotationProperties.

(** X9.  [GetNextPeer] always advances the cursor by one (modulo [2^64]),
    also on an empty pool, and changes nothing else.  It returns nothing
    exactly when the slice is empty; otherwise it returns the entry at
    position [((c + 1) mod 2^64) mod N] of the slice. *)
Theorem GetNextPeer_position `{NetURL} (s : pool.ServerPool) :
  let N := length (pool.backends s) in
  let next := wrap_uint64 (pool.current s + 1) in
  exists r,
    pool.GetNextPeer s = (r, pool.with_current next s)
    /\ (r = None <-> pool.backends s = [])
    /\ (pool.backends s <> [] ->
        r = pool.backends s !! Z.to_nat (next mod Z.of_nat N)
        /\ exists p, r = Some p /\ p ∈ pool.backends s).
Proof.
  intros N next. rewrite GetNextPeer_eq. fold next. fold N. eexists. split; [done|].
  assert (pool.backends s <> [] ->
          exists p, pool.backends s !! cyclic (Z.of_nat N) next 0 = Some p) as Hsome.
  { intros Hne. apply lookup_lt_is_Some_2.
    pose proof (cyclic_lt (Z.of_nat N) next 0).
    assert (N <> 0)%nat by (subst N; destruct (pool.backends s); simpl; [done|lia]).
    lia. }
  split; [split|].
  - intros Hnone. destruct (pool.backends s) as [|p l] eqn:Hbs; [done|].
    destruct Hsome as [q Hq]; [done|]. congruence.
  - intros ->. done.
  - intros Hne. split; [unfold cyclic; by rewrite Z.add_0_r|].
    destruct (Hsome Hne) as [p Hp]. exists p. split; [done|].
    apply list_elem_of_lookup. eauto.
Qed.

(** X10.  Without a wrap of the cursor, [k * N] consecutive calls of
    [GetNextPeer] on a pool of [N] backends return the entries of the slice
    by position, each position exactly [k] times, whatever the alive flags
    and counts of the backends. *)
Theorem GetNextPeer_even_split `{NetURL} (s : pool.ServerPool) (k : nat) :
  let N := length (pool.backends s) in
  0 <= pool.current s ->
  pool.current s + Z.of_nat (k * N) < 2 ^ 64 ->
  exists positions,
    fst (pool.GetNextPeer_calls (k * N) s) = (fun i => pool.backends s !! i) <$> positions
    /\ forall i, (i < N)%nat -> count_occ Nat.eq_dec positions i = k.
Proof.
  intros N Hc Hwrap. eexists. split.
  - by apply GetNextPeer_calls_positions.
  - intros i Hi. by apply count_occ_cycles.
Qed.

Lemma GetNextPeer_even_split_witness :
  fst (pool.GetNextPeer_calls (2 * 3) (Examples.three_pool 4))
  = [Some 2; Some 0; Some 1; Some 2; Some 0; Some 1]%nat.
Proof.
  destruct (GetNextPeer_even_split (H := Examples.plain_url) (Examples.three_pool 4) 2)
    as (positions & Hcalls & _).
  - simpl. lia.
  - simpl. lia.
  - vm_compute. reflexivity.
Defined.

(** X11.  On a non-empty pool [GetNextProxy] returns the proxy of the
    backend that [GetNextPeer] selects and adds one connection: the sum of
    the connection counts grows by exactly one (no count being at the
    greatest [int32]), while the slice and every alive flag are kept.  On an
    empty pool it returns nothing and no count changes. *)
Theorem GetNextProxy_total `{NetURL} (s : pool.ServerPool) :
  Pool_wf s ->
  Forall (fun b => is_int32 (pool.ConnectionCount b + 1)) (pool.mem s) ->
  exists r s',
    pool.GetNextProxy s = (r, s')
    /\ pool.backends s' = pool.backends s
    /\ pool.Alive <$> pool.mem s' = pool.Alive <$> pool.mem s
    /\ (pool.backends s = [] ->
        r = None /\ pool.mem s' = pool.mem s)
    /\ (pool.backends s <> [] ->
        (exists p b, fst (pool.GetNextPeer s) = Some p /\ pool.mem s !! p = Some b
                     /\ r = Some (pool.ReverseProxy b))
        /\ total_connections (pool.mem s') = total_connections (pool.mem s) + 1).
Proof.
  intros Hwf Hint. unfold pool.GetNextProxy. rewrite GetNextPeer_eq.
  set (next := wrap_uint64 (pool.current s + 1)).
  set (N := length (pool.backends s)).
  destruct (pool.backends s !! cyclic (Z.of_nat N) next 0) as [p|] eqn:Hpos.
  - assert (p ∈ pool.backends s) as Hin by (apply list_elem_of_lookup; eauto).
    assert (p < length (pool.mem s))%nat as Hp
        by (unfold Pool_wf in Hwf; rewrite Forall_forall in Hwf; by apply Hwf).
    apply lookup_lt_is_Some_2 in Hp as [b Hb]. simpl. rewrite Hb.
    eexists _, _. split; [done|]. simpl. split; [done|]. split; [|split].
    + apply list_eq. intros q. rewrite !list_lookup_fmap.
      destruct (decide (p = q)) as [->|Hne].
      * rewrite list_lookup_insert_eq by (by eapply lookup_lt_Some). by rewrite Hb.
      * by rewrite list_lookup_insert_ne.
    + intros Hnil. rewrite Hnil in Hin. by apply elem_of_nil in Hin.
    + intros _. split; [eauto|].
      rewrite (total_connections_insert _ p b) by done. simpl.
      rewrite Forall_forall in Hint.
      rewrite wrap_int32_id; [lia|]. apply Hint. apply list_elem_of_lookup. eauto.
  - eexists _, _. split; [done|]. simpl. split; [done|]. split; [done|].
    split; [done|]. intros Hne. apply lookup_ge_None in Hpos.
    pose proof (cyclic_lt (Z.of_nat N) next 0).
    assert (N <> 0)%nat by (subst N; destruct (pool.backends s); simpl; [done|lia]).
    lia.
Qed.

Lemma GetNextProxy_total_witness :
  total_connections (pool.mem (snd (pool.GetNextProxy (Examples.three_pool 0))))
  = total_connections (pool.mem (Examples.three_pool 0)) + 1.
Proof.
  destruct (GetNextProxy_total (H := Examples.plain_url) (Examples.three_pool 0))
    as (r & s' & Hcall & _ & _ & _ & Hsome).
  - repeat constructor; simpl; lia.
  - repeat constructor; unfold is_int32; simpl; lia.
  - rewrite Hcall. apply Hsome. discriminate.
Defined.

(** ** Acquiring and releasing *)

(** X12.  A release undoes an acquire: when [IncrementConnections] returns
    [true], [DecrementConnections] on the result gives back the backend as
    it was; when it returns [false] the backend was not touched. *)
Theorem Increment_Decrement_roundtrip `{NetURL} (fuel : nat) (b b' : pool.Backend)
        (r : bool) :
  is_int32 (pool.ConnectionCount b) -> is_int32 (pool.MaxConnections b) ->
  pool.IncrementConnections (S fuel) b = Some (r, b') ->
  if r then pool.DecrementConnections b' = b else b' = b.
Proof.
  intros Hc Hm. rewrite IncrementConnections_eq by done.
  destruct (Z.ltb_spec (pool.ConnectionCount b) (pool.MaxConnections b)) as [Hlt|Hge];
    intros [= <- <-]; [|done].
  unfold pool.DecrementConnections, pool.atomic_AddInt32. simpl.
  replace (pool.ConnectionCount b + 1 + -1) with (pool.ConnectionCount b) by lia.
  rewrite wrap_int32_id by done. by destruct b.
Qed.

Lemma Increment_Decrement_roundtrip_witness :
  pool.DecrementConnections (Examples.backend Examples.b1 true 1 1 1)
  = Examples.backend Examples.b1 true 1 0 1.
Proof.
  apply (Increment_Decrement_roundtrip (H := Examples.plain_url) 0
           (Examples.backend Examples.b1 true 1 0 1)
           (Examples.backend Examples.b1 true 1 1 1) true).
  - unfold is_int32. simpl. lia.
  - unfold is_int32. simpl. lia.
  - reflexivity.
Defined.

(** X13.  The limit caps the acquires.  Of [n] consecutive calls of
    [IncrementConnections] on a backend with count [c] and limit [m]
    ([0 <= c <= m]), the first [min n (m - c)] return [true] and all later
    ones [false]; the count ends at [c + min n (m - c)], never above [m]. *)
Theorem IncrementConnections_calls_cap `{NetURL} (fuel n : nat) (b : pool.Backend) :
  is_int32 (pool.MaxConnections b) ->
  0 <= pool.ConnectionCount b <= pool.MaxConnections b ->
  let free := Z.to_nat (pool.MaxConnections b - pool.ConnectionCount b) in
  pool.IncrementConnections_calls (S fuel) n b
  = Some (replicate (n `min` free) true ++ replicate (n - free) false,
          pool.with_ConnectionCount (pool.ConnectionCount b + Z.of_nat (n `min` free)) b).
Proof.
  revert b. induction n as [|n IH]; intros b Hm Hc free.
  - simpl. rewrite Z.add_0_r. by destruct b.
  - cbn [pool.IncrementConnections_calls].
    rewrite IncrementConnections_eq by (unfold is_int32 in *; done || lia).
    destruct (Z.ltb_spec (pool.ConnectionCount b) (pool.MaxConnections b)) as [Hlt|Hge].
    + cbn [mbind option_bind].
      rewrite IH by (simpl; done || lia). cbn [mbind option_bind]. simpl.
      set (free' := Z.to_nat (pool.MaxConnections b - (pool.ConnectionCount b + 1))).
      assert (free = S free') as -> by (subst free free'; lia).
      cbn [Nat.min Nat.sub replicate app]. do 2 f_equal.
      unfold pool.with_ConnectionCount. simpl. f_equal. lia.
    + cbn [mbind option_bind].
      rewrite IH by done. cbn [mbind option_bind].
      assert (free = 0%nat) as Hfree by (subst free; lia).
      cbv zeta. fold free. rewrite Hfree, !Nat.min_0_r, !Nat.sub_0_r. simpl.
      done.
Qed.

Lemma IncrementConnections_calls_cap_witness :
  pool.IncrementConnections_calls 1 5 (Examples.backend Examples.b1 true 1 8 10)
  = Some ([true; true; false; false; false], Examples.backend Examples.b1 true 1 10 10).
Proof.
  rewrite (IncrementConnections_calls_cap (H := Examples.plain_url) 0 5
             (Examples.backend Examples.b1 true 1 8 10)).
  - reflexivity.
  - unfold is_int32. simpl. lia.
  - simpl. lia.
Defined.

(** ** Reloading the backends *)

Section ReloadProperties.
Context `{NetURL}.

Lemma UpdateBackends_loop_app (s : pool.ServerPool) (l1 l2 : list config.BackendConfig)
      (m : list pool.Backend) (newBackends : list nat) :
  pool.UpdateBackends_loop s (l1 ++ l2) m newBackends
  = match pool.UpdateBackends_loop s l1 m newBackends with
    | (None, m', newBackends') => pool.UpdateBackends_loop s l2 m' newBackends'
    | failed => failed
    end.
Proof.
  revert m newBackends. induction l1 as [|cfg l1 IH]; intros m newBackends; [done|].
  cbn [app pool.UpdateBackends_loop].
  destruct (pool.UpdateBackends_body s cfg m newBackends) as [err|[m' nb']]; [done|].
  apply IH.
Qed.

Lemma range_find_first {A : Type} (f : A -> bool) (l : list A) (i : nat) (x : A) :
  l !! i = Some x -> f x = true ->
  (forall j y, (j < i)%nat -> l !! j = Some y -> f y = false) ->
  range_find f l = Some i.
Proof.
  revert i. induction l as [|z l IH]; intros [|i] Hi Hx Hbefore; simpl in *; try done.
  - inversion Hi; subst. by rewrite Hx.
  - rewrite (Hbefore 0%nat z ltac:(lia) eq_refl).
    rewrite (IH i Hi Hx); [done|].
    intros j y Hj Hy. apply (Hbefore (S j) y); [lia|done].
Qed.

(** On a pool whose slice already answers the configuration, entry by
    entry and with the configured weights, the loop changes nothing. *)
Lemma UpdateBackends_loop_fixed (t : pool.ServerPool) (configs : list config.BackendConfig) :
  forall (qs newBackends : list nat),
    length qs = length configs ->
    (forall i cfg, configs !! i = Some cfg ->
       exists url q b,
         url_Parse (config.URL cfg) = Some url
         /\ pool.find_backend t (URL_String url) = Some q
         /\ qs !! i = Some q
         /\ pool.mem t !! q = Some b
         /\ pool.Weight b = config.Weight cfg) ->
    pool.UpdateBackends_loop t configs (pool.mem t) newBackends
    = (None, pool.mem t, newBackends ++ qs).
Proof.
  induction configs as [|cfg configs IH]; intros qs newBackends Hlen Hall.
  - destruct qs; [|done]. simpl. by rewrite app_nil_r.
  - destruct qs as [|q0 qs]; [done|]. simpl in Hlen.
    destruct (Hall 0%nat cfg eq_refl) as (url & q & b & Hparse & Hfind & [= ->] & Hb & Hw).
    cbn [pool.UpdateBackends_loop]. unfold pool.UpdateBackends_body. rewrite Hparse.
    assert (pool.with_mem (pool.mem t) t = t) as -> by (by destruct t).
    rewrite Hfind.
    assert (alter (pool.with_Weight (config.Weight cfg)) q (pool.mem t) = pool.mem t) as ->.
    { rewrite <- (list_alter_id id (pool.mem t) q) at 2 by done.
      apply list_alter_ext; [|done]. intros b' Hb'. rewrite Hb in Hb'.
      inversion Hb'; subst. rewrite <- Hw. by destruct b'. }
    rewrite (IH qs (newBackends ++ [q])); [by rewrite <- app_assoc|lia|].
    intros i cfg' Hi. apply (Hall (S i) cfg' Hi).
Qed.

(** What a successful reload leaves, entry by entry. *)
Lemma UpdateBackends_entries (configs : list config.BackendConfig)
      (s : pool.ServerPool) :
  Pool_wf s ->
  Forall (fun cfg => is_Some (url_Parse (config.URL cfg))) configs ->
  exists s',
    pool.UpdateBackends configs s = (None, s')
    /\ length (pool.backends s') = length configs
    /\ (forall i cfg, configs !! i = Some cfg ->
          match resolve s cfg with
          | Some p =>
              pool.backends s' !! i = Some p
              /\ exists b before cfg' after,
                   pool.mem s !! p = Some b
                   /\ pool.mem s' !! p = Some (pool.with_Weight (config.Weight cfg') b)
                   /\ configs = before ++ cfg' :: after
                   /\ resolve s cfg' = Some p
                   /\ Forall (fun cfg'' => resolve s cfg'' <> Some p) after
          | None =>
              exists p url,
                url_Parse (config.URL cfg) = Some url
                /\ pool.backends s' !! i = Some p
                /\ (length (pool.mem s) <= p)%nat
                /\ pool.mem s' !! p = Some (fresh_Backend url cfg)
          end)
    /\ (forall p, p ∈ pool.backends s' -> (p < length (pool.mem s))%nat ->
          exists cfg, cfg ∈ configs /\ resolve s cfg = Some p).
Proof.
  intros Hwf Hparse.
  destruct (UpdateBackends_loop_spec s configs Hwf Hparse (pool.mem s) []
              (mem_rel_refl s) ltac:(lia))
    as (m' & added & Hloop & Hlen & Hrel' & _ & _ & Hweight & Hadded).
  unfold pool.UpdateBackends. rewrite Hloop. simpl.
  eexists. split; [done|]. simpl. split; [done|].
  assert (forall i cfg, configs !! i = Some cfg ->
            match resolve s cfg with
            | Some p => added !! i = Some p
            | None => exists p, added !! i = Some p /\ (length (pool.mem s) <= p)%nat
            end) as Hpos.
  { intros i cfg Hi. specialize (Hadded i cfg Hi). destruct (resolve s cfg); [done|].
    destruct Hadded as (q & url & _ & ? & ? & _). eauto. }
  split.
  - intros i cfg Hi. specialize (Hadded i cfg Hi).
    destruct (resolve s cfg) as [p|] eqn:Hres; [|done].
    split; [done|].
    assert (exists b, pool.mem s !! p = Some b) as [b Hb].
    { unfold resolve in Hres. destruct (url_Parse (config.URL cfg)); [|done].
      simpl in Hres. apply find_backend_Some in Hres as [_ Hmatch].
      apply url_is_true in Hmatch as (b & Hb & _). eauto. }
    destruct (configured_Weight_last s p configs (pool.Weight b))
      as (before & cfg' & after & Hconfigs & Hres' & Hafter & Hw).
    { exists cfg. split; [|done]. apply list_elem_of_lookup. eauto. }
    exists b, before, cfg', after. split; [done|]. split; [|done].
    rewrite <- Hw. apply Hweight; [done|]. rewrite Hb. by destruct b.
  - intros p Hin Hold. apply list_elem_of_lookup in Hin as [i Hi].
    assert (i < length configs)%nat as Hlt by (apply lookup_lt_Some in Hi; lia).
    apply lookup_lt_is_Some_2 in Hlt as [cfg Hcfg].
    exists cfg. split; [apply list_elem_of_lookup; eauto|].
    specialize (Hpos i cfg Hcfg). destruct (resolve s cfg) as [q|].
    + congruence.
    + destruct Hpos as (q & Hq & Hge). rewrite Hi in Hq. inversion Hq; subst. lia.
Qed.

Lemma config_urls_lookup (configs : list config.BackendConfig) (i : nat)
      (cfg : config.BackendConfig) (url : url_URL) :
  Forall (fun cfg => is_Some (url_Parse (config.URL cfg))) configs ->
  configs !! i = Some cfg -> url_Parse (config.URL cfg) = Some url ->
  config_urls configs !! i = Some (URL_String url).
Proof.
  intros Hparse Hi Hurl. unfold config_urls. rewrite omap_lookup_Forall.
  - rewrite Hi. simpl. by rewrite Hurl.
  - eapply Forall_impl; [exact Hparse|]. intros c [u ->]. by eexists.
Qed.
End ReloadProperties.

(** X14.  When a configuration entry does not parse, [UpdateBackends]
    returns the parse error of the first such entry and keeps the slice,
    the cursor and, for every backend, everything but the weight; the
    entries before the failing one have already left their weights in the
    backends they name. *)
Theorem UpdateBackends_parse_error `{NetURL} (before after : list config.BackendConfig)
        (cfg : config.BackendConfig) (s : pool.ServerPool) :
  Pool_wf s ->
  Forall (fun cfg => is_Some (url_Parse (config.URL cfg))) before ->
  url_Parse (config.URL cfg) = None ->
  exists s',
    pool.UpdateBackends (before ++ cfg :: after) s = (Some (url_Error (config.URL cfg)), s')
    /\ pool.backends s' = pool.backends s
    /\ pool.current s' = pool.current s
    /\ forall p b, pool.mem s !! p = Some b ->
         pool.mem s' !! p
         = Some (pool.with_Weight (configured_Weight s p before (pool.Weight b)) b).
Proof.
  intros Hwf Hparse Hnone.
  destruct (UpdateBackends_loop_spec s before Hwf Hparse (pool.mem s) []
              (mem_rel_refl s) ltac:(lia))
    as (m' & added & Hloop & _ & _ & _ & _ & Hweight & _).
  unfold pool.UpdateBackends. rewrite UpdateBackends_loop_app, Hloop.
  cbn [pool.UpdateBackends_loop]. unfold pool.UpdateBackends_body. rewrite Hnone.
  eexists. split; [done|]. simpl. split; [done|]. split; [done|].
  intros p b Hp. apply Hweight; [done|]. rewrite Hp. by destruct b.
Qed.

Lemma UpdateBackends_parse_error_witness :
  exists s',
    pool.UpdateBackends
      [config.mkBackendConfig "http://b2:8080" 9 0; config.mkBackendConfig ":" 1 0]
      Examples.checked_pool
    = (Some (url_Error ":"), s')
    /\ pool.backends s' = [0; 1; 2]%nat
    /\ pool.Weight <$> pool.mem s' = [1; 9; 1].
Proof.
  destruct (UpdateBackends_parse_error (H := Examples.checked_url)
              [config.mkBackendConfig "http://b2:8080" 9 0] []
              (config.mkBackendConfig ":" 1 0) Examples.checked_pool)
    as (s' & Hcall & Hbs & _ & _).
  - repeat constructor; simpl; lia.
  - repeat constructor. by eexists.
  - reflexivity.
  - exists s'. split; [exact Hcall|]. vm_compute in Hcall. inversion Hcall; subst.
    split; reflexivity.
Defined.

(** X15.  A backend that [UpdateBackends] creates has the limit zero: it is
    alive and idle, and every [IncrementConnections] on it returns [false]
    and leaves it as it is.  ([AddBackend] gives a backend without a
    configured limit the default of the pool instead.) *)
Theorem UpdateBackends_new_backend_closed `{NetURL} (configs : list config.BackendConfig)
        (s : pool.ServerPool) (i : nat) (cfg : config.BackendConfig) :
  Pool_wf s ->
  Forall (fun cfg => is_Some (url_Parse (config.URL cfg))) configs ->
  configs !! i = Some cfg ->
  resolve s cfg = None ->
  exists s' p b,
    pool.UpdateBackends configs s = (None, s')
    /\ pool.backends s' !! i = Some p
    /\ pool.mem s' !! p = Some b
    /\ pool.Alive b = true
    /\ pool.ConnectionCount b = 0
    /\ pool.MaxConnections b = 0
    /\ forall fuel, pool.IncrementConnections (S fuel) b = Some (false, b).
Proof.
  intros Hwf Hparse Hi Hres.
  destruct (UpdateBackends_entries configs s Hwf Hparse) as (s' & Hcall & _ & Hentries & _).
  specialize (Hentries i cfg Hi). rewrite Hres in Hentries.
  destruct Hentries as (p & url & _ & Hp & _ & Hb).
  exists s', p, (fresh_Backend url cfg). repeat split; done.
Qed.

Lemma UpdateBackends_new_backend_closed_witness :
  exists s' p b,
    pool.UpdateBackends [config.mkBackendConfig "http://b4:8080" 2 100] (Examples.three_pool 0)
    = (None, s')
    /\ pool.backends s' !! 0%nat = Some p
    /\ pool.mem s' !! p = Some b
    /\ pool.IncrementConnections 1 b = Some (false, b).
Proof.
  destruct (UpdateBackends_new_backend_closed (H := Examples.plain_url)
              [config.mkBackendConfig "http://b4:8080" 2 100] (Examples.three_pool 0)
              0 (config.mkBackendConfig "http://b4:8080" 2 100))
    as (s' & p & b & Hcall & Hp & Hb & _ & _ & _ & Hinc).
  - repeat constructor; simpl; lia.
  - repeat constructor. by eexists.
  - reflexivity.
  - reflexivity.
  - exists s', p, b. repeat split; done.
Defined.

(** X16.  Reloading the same configuration twice changes nothing the
    second time, provided its entries parse and print pairwise different
    URLs: the second [UpdateBackends] succeeds and returns the pool that the
    first one produced, with the same backend records in the same order and
    the same weights, counts and alive flags. *)
Theorem UpdateBackends_idempotent `{NetURL} (configs : list config.BackendConfig)
        (s : pool.ServerPool) :
  Pool_wf s ->
  Forall (fun cfg => is_Some (url_Parse (config.URL cfg))) configs ->
  NoDup (config_urls configs) ->
  exists s1,
    pool.UpdateBackends configs s = (None, s1)
    /\ pool.UpdateBackends configs s1 = (None, s1).
Proof.
  intros Hwf Hparse Hnodup.
  destruct (UpdateBackends_entries configs s Hwf Hparse) as (s1 & Hcall & Hlen & Hentries & _).
  exists s1. split; [done|].
  (* what the first reload leaves for each entry *)
  assert (forall i cfg, configs !! i = Some cfg ->
            exists url q b,
              url_Parse (config.URL cfg) = Some url
              /\ pool.backends s1 !! i = Some q
              /\ pool.mem s1 !! q = Some b
              /\ URL_String (pool.URL b) = URL_String url
              /\ pool.Weight b = config.Weight cfg) as Hleft.
  { intros i cfg Hi. specialize (Hentries i cfg Hi).
    assert (exists url, url_Parse (config.URL cfg) = Some url) as [url Hurl].
    { rewrite Forall_forall in Hparse. apply Hparse. apply list_elem_of_lookup. eauto. }
    destruct (resolve s cfg) as [p|] eqn:Hres.
    - destruct Hentries as (Hp & b & before & cfg' & after & Hb & Hb1 & Hsplit & Hres' & _).
      assert (URL_String (pool.URL b) = URL_String url) as Hu.
      { unfold resolve in Hres. rewrite Hurl in Hres. simpl in Hres.
        apply find_backend_Some in Hres as [_ Hmatch].
        apply url_is_true in Hmatch as (b0 & Hb0 & Hu0). congruence. }
      assert (cfg' = cfg) as ->.
      { assert (configs !! length before = Some cfg') as Hj
            by (rewrite Hsplit; apply list_lookup_middle; done).
        assert (exists url', url_Parse (config.URL cfg') = Some url') as [url' Hurl'].
        { rewrite Forall_forall in Hparse. apply Hparse. apply list_elem_of_lookup. eauto. }
        assert (URL_String url' = URL_String url) as Heq.
        { unfold resolve in Hres'. rewrite Hurl' in Hres'. simpl in Hres'.
          apply find_backend_Some in Hres' as [_ Hmatch].
          apply url_is_true in Hmatch as (b0 & Hb0 & Hu0). congruence. }
        pose proof (config_urls_lookup configs _ cfg' url' Hparse Hj Hurl') as Hcj.
        pose proof (config_urls_lookup configs _ cfg url Hparse Hi Hurl) as Hci.
        rewrite Heq in Hcj.
        assert (length before = i) as <- by (eapply NoDup_lookup; eauto).
        congruence. }
      exists url, p, (pool.with_Weight (config.Weight cfg) b). by repeat split.
    - destruct Hentries as (p & url' & Hurl' & Hp & _ & Hb).
      assert (url' = url) as -> by congruence.
      exists url, p, (fresh_Backend url cfg). by repeat split. }
  (* hence each entry finds its own backend in the new pool *)
  assert (forall i cfg, configs !! i = Some cfg ->
            exists url q b,
              url_Parse (config.URL cfg) = Some url
              /\ pool.find_backend s1 (URL_String url) = Some q
              /\ pool.backends s1 !! i = Some q
              /\ pool.mem s1 !! q = Some b
              /\ pool.Weight b = config.Weight cfg) as Hfixed.
  { intros i cfg Hi. destruct (Hleft i cfg Hi) as (url & q & b & Hurl & Hq & Hb & Hu & Hw).
    exists url, q, b. repeat split; try done.
    unfold pool.find_backend.
    rewrite (range_find_first _ (pool.backends s1) i q); [by simpl|done| |].
    - apply url_is_true. eauto.
    - intros j q' Hj Hq'.
      assert (j < length configs)%nat as Hjlen by (apply lookup_lt_Some in Hi; lia).
      apply lookup_lt_is_Some_2 in Hjlen as [cfg' Hcfg'].
      destruct (Hleft j cfg' Hcfg') as (url' & q'' & b' & Hurl' & Hq'' & Hb' & Hu' & _).
      rewrite Hq' in Hq''. inversion Hq''; subst q''.
      unfold pool.url_is. rewrite Hb'. apply String.eqb_neq. rewrite Hu'.
      intros Heq.
      pose proof (config_urls_lookup configs _ cfg' url' Hparse Hcfg' Hurl') as Hcj.
      pose proof (config_urls_lookup configs _ cfg url Hparse Hi Hurl) as Hci.
      rewrite Heq in Hcj.
      assert (j = i) by (eapply NoDup_lookup; eauto). lia. }
  unfold pool.UpdateBackends.
  rewrite (UpdateBackends_loop_fixed s1 configs (pool.backends s1) []); [|done|done].
  simpl. by destruct s1.
Qed.

Lemma UpdateBackends_idempotent_witness :
  exists s1,
    pool.UpdateBackends
      [config.mkBackendConfig Examples.b3 7 0; config.mkBackendConfig "http://b4:8080" 2 0]
      (Examples.three_pool 0) = (None, s1)
    /\ pool.UpdateBackends
         [config.mkBackendConfig Examples.b3 7 0; config.mkBackendConfig "http://b4:8080" 2 0]
         s1 = (None, s1).
Proof.
  apply (UpdateBackends_idempotent (H := Examples.plain_url)).
  - repeat constructor; simpl; lia.
  - repeat constructor; by eexists.
  - vm_compute. repeat constructor.
    + intros Hin. apply list_elem_of_singleton in Hin. discriminate.
    + intros Hin. by apply elem_of_nil in Hin.
Defined.

(** ** Forwarding and the error handler *)

Section ForwardingProperties.
Context `{NetURL}.

Lemma GetNextProxy_cases (s : pool.ServerPool) :
  Pool_wf s ->
  exists r s',
    pool.GetNextProxy s = (r, s')
    /\ pool.backends s' = pool.backends s
    /\ Pool_wf s'
    /\ (Pool_handlers s -> Pool_handlers s')
    /\ (r = None -> pool.backends s = [])
    /\ (pool.backends s <> [] ->
        exists p b, p ∈ pool.backends s /\ pool.mem s !! p = Some b
                    /\ r = Some (pool.ReverseProxy b)).
Proof.
  intros Hwf. unfold pool.GetNextProxy. rewrite GetNextPeer_eq.
  set (next := wrap_uint64 (pool.current s + 1)).
  set (N := length (pool.backends s)).
  destruct (pool.backends s !! cyclic (Z.of_nat N) next 0) as [p|] eqn:Hpos.
  - assert (p ∈ pool.backends s) as Hin by (apply list_elem_of_lookup; eauto).
    assert (p < length (pool.mem s))%nat as Hp
        by (unfold Pool_wf in Hwf; rewrite Forall_forall in Hwf; by apply Hwf).
    apply lookup_lt_is_Some_2 in Hp as [b Hb]. simpl. rewrite Hb.
    eexists _, _. split; [done|]. simpl. split; [done|]. split; [|split; [|split]].
    + apply Pool_wf_with_mem; [done|]. simpl. by rewrite length_insert.
    + unfold Pool_handlers. simpl. intros Hall. apply Forall_insert; [done|]. simpl.
      rewrite Forall_forall in Hall. apply Hall. apply list_elem_of_lookup. eauto.
    + done.
    + intros _. eauto.
  - assert (pool.backends s = []) as Hnil.
    { destruct (pool.backends s) as [|q l] eqn:Hbs; [done|].
      apply lookup_ge_None in Hpos.
      pose proof (cyclic_lt (Z.of_nat N) next 0). subst N. simpl in *. lia. }
    eexists _, _. split; [done|]. simpl. repeat split; try done.
Qed.

Lemma MarkBackendStatus_keeps (backendUrl : url_URL) (alive : bool) (s : pool.ServerPool) :
  pool.backends (pool.MarkBackendStatus backendUrl alive s) = pool.backends s
  /\ (Pool_wf s -> Pool_wf (pool.MarkBackendStatus backendUrl alive s))
  /\ (Pool_handlers s -> Pool_handlers (pool.MarkBackendStatus backendUrl alive s)).
Proof.
  rewrite MarkBackendStatus_eq.
  destruct (pool.find_backend s (URL_String backendUrl)) as [p|]; [|done].
  split; [done|]. split.
  - intros Hwf. apply Pool_wf_with_mem; [done|]. by rewrite length_alter.
  - unfold Pool_handlers. simpl. intros Hall. apply Forall_alter; [done|].
    by intros b _ Hb.
Qed.
End ForwardingProperties.

(** X17.  An exchange gets at most one response.  When [ServeHTTP]
    returns, it has forwarded to its target first, the slice of the pool is
    the one it started with, and it has written nothing or exactly one of:
    the response of an upstream, a 502 (a proxy without the handler of
    [AddBackend]) or the 503 "No proxy server available right now".  The
    503 is written only when the slice is empty, and nothing is written only
    when the request was cancelled or its retry count is 3 or more. *)
Theorem ServeHTTP_one_response `{NetURL} (RoundTrip : nat -> url_URL -> bool)
        (fuel : nat) (proxy : pool.ReverseProxy_t) (r : pool.Request)
        (x x' : pool.Exchange) :
  Pool_wf (pool.Pool x) ->
  pool.ServeHTTP RoundTrip fuel proxy r x = Some x' ->
  pool.backends (pool.Pool x') = pool.backends (pool.Pool x)
  /\ (exists fs, pool.Forwards x' = pool.Forwards x ++ pool.Target proxy :: fs)
  /\ exists ws,
       pool.Writes x' = pool.Writes x ++ ws
       /\ ((ws = [] /\ (pool.Context_Done r = true \/ 3 <= pool.GetRetryFromContext r))
           \/ (exists u, ws = [pool.UpstreamResponse u])
           \/ ws = [pool.WriteHeader 502]
           \/ (ws = [pool.http_Error "No proxy server available right now" 503]
               /\ pool.backends (pool.Pool x) = [])).
Proof.
  revert proxy x. induction fuel as [|fuel IH]; intros proxy x Hwf Hserve; [done|].
  destruct x as [s ws0 fs0]. cbn [pool.ServeHTTP pool.Pool pool.Writes pool.Forwards] in *.
  destruct (RoundTrip (length fs0) (pool.Target proxy)).
  { inversion Hserve; subst. simpl. split; [done|]. split; [by exists []|].
    eexists. split; [done|]. right. left. eauto. }
  destruct (pool.ErrorHandlerSet proxy).
  2:{ inversion Hserve; subst. simpl. split; [done|]. split; [by exists []|].
      eexists. split; [done|]. right. right. by left. }
  unfold pool.ErrorHandler in Hserve. cbn [pool.Pool pool.Writes pool.Forwards] in Hserve.
  destruct (MarkBackendStatus_keeps (pool.Target proxy) false s) as (Hbs1 & Hwf1 & _).
  specialize (Hwf1 Hwf).
  destruct (Z.ltb_spec (pool.GetRetryFromContext r) 3) as [Hlt|Hge].
  2:{ inversion Hserve; subst. simpl. split; [done|]. split; [by exists []|].
      exists []. rewrite app_nil_r. split; [done|]. left. split; [done|]. by right. }
  destruct (pool.Context_Done r) eqn:Hdone.
  { inversion Hserve; subst. simpl. split; [done|]. split; [by exists []|].
    exists []. rewrite app_nil_r. split; [done|]. left. split; [done|]. by left. }
  destruct (GetNextProxy_cases _ Hwf1) as (r' & s2 & Hnext & Hbs2 & Hwf2 & _ & Hnone & _).
  rewrite Hnext in Hserve. destruct r' as [proxy'|].
  - apply IH in Hserve as (Hbs & (fs & Hfs) & ws & Hws & Hcases); [|done].
    cbn [pool.Pool pool.Writes pool.Forwards] in *.
    split; [congruence|]. split.
    + exists (pool.Target proxy' :: fs). by rewrite Hfs, <- app_assoc.
    + exists ws. split; [done|].
      destruct Hcases as [?|[?|[?|[? Hnil]]]]; [by left|by right; left|by right; right; left|].
      right; right; right. split; [done|]. congruence.
  - inversion Hserve; subst. simpl. split; [congruence|]. split; [by exists []|].
    eexists. split; [done|]. right; right; right. split; [done|].
    rewrite <- Hbs1. by apply Hnone.
Qed.

Lemma ServeHTTP_one_response_witness :
  exists x',
    pool.ServeHTTP (fun n _ => (5 <=? n)%nat) 7 Examples.proxy_b1 Examples.fresh_request
                   (pool.mkExchange Examples.full_pool [] []) = Some x'
    /\ pool.backends (pool.Pool x') = [0%nat].
Proof.
  destruct (pool.ServeHTTP (fun n _ => (5 <=? n)%nat) 7 Examples.proxy_b1
              Examples.fresh_request (pool.mkExchange Examples.full_pool [] []))
    as [x'|] eqn:Hserve; [|vm_compute in Hserve; discriminate].
  exists x'. split; [reflexivity|].
  destruct (ServeHTTP_one_response (H := Examples.plain_url)
              (fun n _ => (5 <=? n)%nat) 7 Examples.proxy_b1 Examples.fresh_request
              (pool.mkExchange Examples.full_pool [] []) x') as [Hbs _].
  - repeat constructor; simpl; lia.
  - exact Hserve.
  - exact Hbs.
Defined.

(** X18.  The handler retries for as long as the network fails: on a
    non-empty pool whose proxies all carry the handler, with a request that
    is not cancelled and whose retry count is below 3, if the next [k]
    forwards meet a transport error and the one after is answered, then
    [ServeHTTP] forwards [k + 1] times and writes the upstream's response,
    for every [k]; the retry count in the context is never raised. *)
Theorem ServeHTTP_retries_follow_network `{NetURL} (RoundTrip : nat -> url_URL -> bool)
        (k fuel : nat) (proxy : pool.ReverseProxy_t) (r : pool.Request)
        (x : pool.Exchange) :
  Pool_wf (pool.Pool x) -> Pool_handlers (pool.Pool x) ->
  pool.backends (pool.Pool x) <> [] ->
  pool.ErrorHandlerSet proxy = true ->
  pool.Context_Done r = false -> pool.GetRetryFromContext r < 3 ->
  (forall n u, (length (pool.Forwards x) <= n < length (pool.Forwards x) + k)%nat ->
               RoundTrip n u = false) ->
  (forall u, RoundTrip (length (pool.Forwards x) + k)%nat u = true) ->
  (k < fuel)%nat ->
  exists x' u,
    pool.ServeHTTP RoundTrip fuel proxy r x = Some x'
    /\ length (pool.Forwards x') = (length (pool.Forwards x) + k + 1)%nat
    /\ pool.Writes x' = pool.Writes x ++ [pool.UpstreamResponse u].
Proof.
  revert fuel proxy x. induction k as [|k IH];
    intros fuel proxy x Hwf Hhandlers Hne Hset Hdone Hretry Hfail Hok Hfuel.
  - destruct fuel as [|fuel]; [lia|]. destruct x as [s ws fs]. simpl in *.
    rewrite Nat.add_0_r in Hok. rewrite Hok. eexists _, _. split; [done|]. simpl.
    rewrite length_app. simpl. split; [lia|done].
  - destruct fuel as [|fuel]; [lia|]. destruct x as [s ws fs].
    cbn [pool.ServeHTTP pool.Pool pool.Writes pool.Forwards] in *.
    rewrite (Hfail (length fs)) by lia. rewrite Hset.
    unfold pool.ErrorHandler. cbn [pool.Pool pool.Writes pool.Forwards].
    destruct (Z.ltb_spec (pool.GetRetryFromContext r) 3) as [_|]; [|lia].
    rewrite Hdone.
    destruct (MarkBackendStatus_keeps (pool.Target proxy) false s) as (Hbs1 & Hwf1 & Hh1).
    destruct (GetNextProxy_cases _ (Hwf1 Hwf))
      as (r' & s2 & Hnext & Hbs2 & Hwf2 & Hh2 & _ & Hsome).
    destruct Hsome as (p & b & Hin & Hb & ->); [congruence|].
    rewrite Hnext.
    destruct (IH fuel (pool.ReverseProxy b)
                (pool.mkExchange s2 ws (fs ++ [pool.Target proxy])))
      as (x' & u & Hserve & Hlen & Hws); cbn [pool.Pool pool.Writes pool.Forwards];
      try done.
    + by apply Hh2, Hh1.
    + congruence.
    + assert (Pool_handlers (pool.MarkBackendStatus (pool.Target proxy) false s)) as Hall
          by (by apply Hh1).
      unfold Pool_handlers in Hall. rewrite Forall_forall in Hall.
      apply Hall. apply list_elem_of_lookup. eauto.
    + intros n u Hn. apply Hfail. rewrite length_app in Hn. simpl in Hn. lia.
    + intros u. rewrite length_app. simpl.
      replace (length fs + 1 + k)%nat with (length fs + S k)%nat by lia. apply Hok.
    + lia.
    + exists x', u. split; [done|]. split; [|done].
      cbn [pool.Forwards] in Hlen. rewrite Hlen, length_app. simpl. lia.
Qed.

Lemma ServeHTTP_retries_follow_network_witness :
  exists x' u,
    pool.ServeHTTP (fun n _ => (5 <=? n)%nat) 7 Examples.proxy_b1 Examples.fresh_request
                   (pool.mkExchange Examples.full_pool [] []) = Some x'
    /\ length (pool.Forwards x') = (0 + 5 + 1)%nat
    /\ pool.Writes x' = [] ++ [pool.UpstreamResponse u].
Proof.
  apply (ServeHTTP_retries_follow_network (H := Examples.plain_url)
           (fun n _ => (5 <=? n)%nat) 5 7 Examples.proxy_b1 Examples.fresh_request
           (pool.mkExchange Examples.full_pool [] [])).
  - repeat constructor; simpl; lia.
  - repeat constructor.
  - discriminate.
  - reflexivity.
  - reflexivity.
  - reflexivity.
  - intros n u Hn. simpl in Hn. apply Nat.leb_gt. lia.
  - intros u. reflexivity.
  - lia.
Defined.

(** ** The policy on the pool, and the pool's configuration *)

(** X19.  Round-robin on a server pool selects without acquiring: a call
    of [NextServer] leaves every backend record and the slice as they are
    (only the cursor moves), and the server it returns is the copy of a
    backend of the slice, at the returned position, that is alive and can
    accept a connection. *)
Theorem NextServer_on_pool `{NetURL} (CanAcceptConnection : algorithm.Server -> bool)
        (s : pool.ServerPool) :
  Pool_wf s ->
  Z.of_nat (length (pool.backends s)) < 2 ^ 63 ->
  exists r s',
    algorithm.NextServer CanAcceptConnection s = (r, s')
    /\ pool.mem s' = pool.mem s
    /\ pool.backends s' = pool.backends s
    /\ forall k server, r = Some (k, server) ->
         exists p b,
           pool.backends s !! k = Some p
           /\ pool.mem s !! p = Some b
           /\ server = Server_of b
           /\ pool.Alive b = true
           /\ CanAcceptConnection (Server_of b) = true.
Proof.
  intros Hwf Hlen. unfold algorithm.NextServer.
  cbn [algorithm.GetBackends algorithm.GetCurrentIndex algorithm.SetCurrentIndex
       pool.ServerPool_algorithm].
  assert (length (pool.GetBackends s) = length (pool.backends s)) as Hsame.
  { rewrite GetBackends_eq. apply omap_length_Forall. by apply Pool_wf_is_Some. }
  destruct (Nat.eqb_spec (length (pool.GetBackends s)) 0) as [H0|Hpos].
  - eexists _, _. split; [done|]. repeat split; try done.
  - eexists _, _. split; [done|]. split; [done|]. split; [done|].
    intros k server Hr.
    set (l := Z.of_nat (length (pool.GetBackends s))) in *.
    set (next := wrap_uint64 (pool.GetCurrentIndex s + 1)) in *.
    pose proof (Z.mod_pos_bound next l ltac:(lia)) as Hidx.
    pose proof (NextServer_scan_spec CanAcceptConnection (pool.GetBackends s) (next mod l)
                  ltac:(fold l; lia) Hidx (length (pool.GetBackends s)) 0
                  ltac:(lia) ltac:(lia)) as Hscan.
    fold l in Hscan. rewrite Hr in Hscan.
    destruct Hscan as (j & _ & _ & Hk & Hel & _).
    rewrite GetBackends_eq, omap_lookup_Forall in Hk by (by apply Pool_wf_is_Some).
    destruct (pool.backends s !! k) as [p|] eqn:Hp; [|done]. simpl in Hk.
    destruct (pool.mem s !! p) as [b|] eqn:Hb; [|done]. simpl in Hk.
    inversion Hk; subst.
    exists p, b. unfold eligible in Hel. apply andb_prop in Hel as [Ha Hc].
    repeat split; done.
Qed.

Lemma NextServer_on_pool_witness :
  exists r s',
    algorithm.NextServer Examples.CanAcceptConnection (Examples.three_pool 6) = (r, s')
    /\ pool.mem s' = pool.mem (Examples.three_pool 6).
Proof.
  destruct (NextServer_on_pool (H := Examples.plain_url) Examples.CanAcceptConnection
              (Examples.three_pool 6)) as (r & s' & Hcall & Hmem & _).
  - repeat constructor; simpl; lia.
  - simpl. lia.
  - exists r, s'. split; [exact Hcall|exact Hmem].
Defined.

(** X20.  [UpdateConfig] writes only the pool-wide settings: backends, slice
    and cursor are kept, so the limit of a backend already in the pool does
    not follow a new default.  A zero [MaxConns] and an empty [Algorithm]
    mean "keep": with both the pool is unchanged.  A backend added afterwards
    without a limit of its own gets the new default. *)
Theorem UpdateConfig_default_limit `{NetURL} (update : pool.PoolConfig)
        (s : pool.ServerPool) :
  let s1 := pool.UpdateConfig update s in
  pool.mem s1 = pool.mem s
  /\ pool.backends s1 = pool.backends s
  /\ pool.current s1 = pool.current s
  /\ (pool.MaxConns update = 0 -> pool.Algorithm update = "" -> s1 = s)
  /\ (pool.MaxConns update <> 0 ->
      pool.GetMaxConnections s1 = pool.MaxConns update
      /\ forall cfg url,
           url_Parse (config.URL cfg) = Some url ->
           config.MaxConnections cfg = 0 ->
           exists s' b,
             pool.AddBackend cfg s1 = (None, s')
             /\ pool.mem s' = pool.mem s ++ [b]
             /\ pool.MaxConnections b = pool.MaxConns update).
Proof.
  intros s1. subst s1. unfold pool.UpdateConfig.
  destruct (Z.eqb_spec (pool.MaxConns update) 0) as [H0|Hne];
    destruct (String.eqb_spec (pool.Algorithm update) "") as [Hempty|Hname]; simpl;
    (split; [done|]); (split; [done|]); (split; [done|]); split;
    try done; try (intros; congruence).
  all: intros _; split; [done|]; intros cfg url Hparse Hmax.
  all: unfold pool.AddBackend; rewrite Hparse, Hmax; simpl; eexists _, _; by repeat split.
Qed.

Lemma UpdateConfig_default_limit_witness :
  exists s' b,
    pool.AddBackend (config.mkBackendConfig "http://b4:8080" 2 0)
      (pool.UpdateConfig (pool.mkPoolConfig "" 50) (Examples.three_pool 0)) = (None, s')
    /\ pool.mem s' = pool.mem (Examples.three_pool 0) ++ [b]
    /\ pool.MaxConnections b = 50.
Proof.
  destruct (UpdateConfig_default_limit (H := Examples.plain_url)
              (pool.mkPoolConfig "" 50) (Examples.three_pool 0)) as (_ & _ & _ & _ & Hnew).
  destruct Hnew as [_ Hadd]; [discriminate|].
  apply (Hadd (config.mkBackendConfig "http://b4:8080" 2 0) "http://b4:8080");
    reflexivity.
Defined.

(** ** The reports of the admin API *)

Lemma wrap_int64_id (z : Z) : - 2 ^ 63 <= z < 2 ^ 63 -> wrap_int64 z = z.
Proof. unfold wrap_int64. intros Hz. rewrite Z.mod_small; lia. Qed.

(** A map filled by a loop holds, under each key, what the last element
    with that key wrote. *)
Lemma foldl_insert_last {A V : Type} (key : A -> string) (val : A -> V) (l : list A)
      (m0 : gmap string V) (k : string) :
  foldl (fun m x => <[key x := val x]> m) m0 l !! k
  = match last (List.filter (fun x => String.eqb (key x) k) l) with
    | Some x => Some (val x)
    | None => m0 !! k
    end.
Proof.
  induction l as [|x l IH] using rev_ind; [done|].
  rewrite foldl_app, List.filter_app. simpl.
  destruct (String.eqb_spec (key x) k) as [->|Hne].
  - by rewrite lookup_insert_eq, last_snoc.
  - rewrite lookup_insert_ne by done. by rewrite app_nil_r.
Qed.

Section ReportProperties.
Context `{NetURL}.

Lemma handleStats_location_eq (name : string) (stats : gmap string admin.Stats)
      (loc : service.LocationInfo) :
  admin.handleStats_location name stats loc = <[name := location_stats loc]> stats.
Proof.
  unfold admin.handleStats_location, location_stats.
  by destruct (admin.handleStats_backends _).
Qed.

(** The two nested loops over services and locations, for any body that
    stores a value computed from the location under the service's name. *)
Lemma report_loops_lookup {V : Type} (val : service.LocationInfo -> V)
      (body : string -> gmap string V -> service.LocationInfo -> gmap string V)
      (a : service.Manager) (name : string) :
  (forall n m loc, body n m loc = <[n := val loc]> m) ->
  foldl (fun m srvc => foldl (body (service.Name srvc)) m (service.Locations srvc)) ∅ a
    !! name
  = val <$> last (locations_named a name).
Proof.
  intros Hbody. induction a as [|srvc a IH] using rev_ind; [done|].
  rewrite foldl_app. simpl. unfold locations_named in *. rewrite bind_app. simpl.
  rewrite app_nil_r.
  assert (foldl (body (service.Name srvc))
            (foldl (fun m srvc => foldl (body (service.Name srvc)) m (service.Locations srvc))
                   ∅ a)
            (service.Locations srvc)
          = foldl (fun m loc => <[service.Name srvc := val loc]> m)
              (foldl (fun m srvc => foldl (body (service.Name srvc)) m
                                      (service.Locations srvc)) ∅ a)
              (service.Locations srvc)) as ->.
  { generalize (foldl (fun m srvc => foldl (body (service.Name srvc)) m
                                       (service.Locations srvc)) ∅ a).
    induction (service.Locations srvc) as [|loc locs IHl]; intros m; [done|].
    simpl. by rewrite Hbody, IHl. }
  rewrite (foldl_insert_last (fun _ => service.Name srvc) val), IH.
  destruct (String.eqb_spec (service.Name srvc) name) as [Heq|Hne].
  - assert (List.filter (fun _ : service.LocationInfo => true) (service.Locations srvc)
            = service.Locations srvc) as ->.
    { induction (service.Locations srvc) as [|loc locs IHl]; [done|]. simpl. by rewrite IHl. }
    destruct (service.Locations srvc) as [|loc locs] using rev_ind.
    + by rewrite app_nil_r.
    + by rewrite app_assoc, !last_snoc.
  - assert (List.filter (fun _ : service.LocationInfo => false) (service.Locations srvc)
            = []) as ->.
    { induction (service.Locations srvc) as [|loc locs IHl]; [done|]. done. }
    by rewrite app_nil_r.
Qed.

Lemma handleStats_backends_acc (backends : list algorithm.Server) (t0 a0 : Z) :
  Forall (fun backend => is_int32 (algorithm.ConnectionCount backend)) backends ->
  Z.abs t0 + Z.of_nat (length backends) * 2 ^ 31 <= 2 ^ 62 ->
  0 <= a0 -> a0 + Z.of_nat (length backends) <= 2 ^ 62 ->
  foldl (fun '(totalConnections, activeBackends) backend =>
           let activeBackends :=
             if algorithm.Alive backend then wrap_int64 (activeBackends + 1)
             else activeBackends in
           (wrap_int64 (totalConnections + algorithm.ConnectionCount backend),
            activeBackends))
        (t0, a0) backends
  = (t0 + connection_sum backends, a0 + alive_count backends).
Proof.
  intros Hall. revert t0 a0. induction Hall as [|backend backends Hc _ IH];
    intros t0 a0 Ht Ha0 Ha.
  - unfold alive_count. simpl. f_equal; lia.
  - cbn [foldl]. cbn [length] in Ht, Ha. unfold is_int32 in Hc.
    rewrite (wrap_int64_id (t0 + _)) by lia.
    unfold alive_count, connection_sum in *. cbn [List.filter foldr].
    destruct (algorithm.Alive backend).
    + rewrite (wrap_int64_id (a0 + 1)) by lia. rewrite IH by lia.
      cbn [length]. f_equal; lia.
    + rewrite IH by lia. f_equal; lia.
Qed.
End ReportProperties.

(** X21.  [handleStats] answers 405 to any method but GET.  To a GET it
    writes one map that holds, under a name, the statistics of the last
    location, in registry order, of the services with that name: a service
    with several locations is reported by its last location only, and a
    name without locations has no entry. *)
Theorem handleStats_last_location `{NetURL} (a : service.Manager) (r : admin.Request) :
  (admin.Method r <> "GET" ->
   admin.handleStats a r = [admin.report_Error "Method not allowed" 405])
  /\ (admin.Method r = "GET" ->
      exists stats,
        admin.handleStats a r = [admin.report_Stats stats]
        /\ (forall name, stats !! name = location_stats <$> last (locations_named a name))
        /\ (forall name, stats !! name = None <-> locations_named a name = [])).
Proof.
  unfold admin.handleStats, admin.http_MethodGet. split.
  - intros Hm. by destruct (String.eqb_spec (admin.Method r) "GET").
  - intros ->. simpl. eexists. split; [done|].
    assert (forall name,
              foldl (fun stats srvc =>
                       foldl (admin.handleStats_location (service.Name srvc)) stats
                             (service.Locations srvc)) ∅ (service.GetServices a) !! name
              = location_stats <$> last (locations_named a name)) as Hlookup.
    { intros name. apply report_loops_lookup. apply handleStats_location_eq. }
    split; [done|]. intros name. rewrite Hlookup.
    destruct (locations_named a name) as [|loc locs] using rev_ind; [done|].
    rewrite last_snoc. simpl. split; [done|]. by intros ?%app_nil_r_inv.
Qed.

Lemma handleStats_last_location_witness :
  exists stats,
    admin.handleStats Examples.manager Examples.get_api_backends = [admin.report_Stats stats]
    /\ stats !! "backend-api" = Some (admin.mkStats 3 3 0).
Proof.
  destruct (handleStats_last_location (H := Examples.plain_url) Examples.manager
              Examples.get_api_backends) as [_ Hget].
  destruct (Hget eq_refl) as (stats & Hcall & Hlookup & _).
  exists stats. split; [exact Hcall|]. rewrite Hlookup. reflexivity.
Defined.

(** X22.  The sums of [handleStats] over a snapshot (of fewer than [2^30]
    servers): [total_connections] is the sum of the connection counts and
    [active_backends] is the number of alive servers, which lies between 0
    and the number of servers reported as [total_backends]. *)
Theorem handleStats_backends_sums (backends : list algorithm.Server) :
  Forall (fun backend => is_int32 (algorithm.ConnectionCount backend)) backends ->
  Z.of_nat (length backends) < 2 ^ 30 ->
  admin.handleStats_backends backends = (connection_sum backends, alive_count backends)
  /\ 0 <= alive_count backends <= Z.of_nat (length backends).
Proof.
  intros Hall Hlen. split.
  - unfold admin.handleStats_backends. rewrite handleStats_backends_acc; try done; try lia.
  - unfold alive_count. pose proof (List.filter_length_le algorithm.Alive backends). lia.
Qed.

Lemma handleStats_backends_sums_witness :
  admin.handleStats_backends
    [algorithm.mkServer Examples.b1 1 0 4 10 true; algorithm.mkServer Examples.b2 1 0 3 10 false]
  = (7, 1).
Proof.
  destruct (handleStats_backends_sums
              [algorithm.mkServer Examples.b1 1 0 4 10 true;
               algorithm.mkServer Examples.b2 1 0 3 10 false]) as [Heq _].
  - repeat constructor; unfold is_int32; simpl; lia.
  - simpl. lia.
  - exact Heq.
Defined.

(** X23.  [handleHealth] answers 405 to any method but GET.  To a GET it
    writes one map that holds, under a name, the health of the last
    location of the services with that name; in the health of a location,
    a URL carried by several backends shows the alive flag and the count of
    the last of them in the snapshot, and a URL of no backend has no
    entry. *)
Theorem handleHealth_last_location `{NetURL} (a : service.Manager) (r : admin.Request) :
  (admin.Method r <> "GET" ->
   admin.handleHealth a r = [admin.report_Error "Method not allowed" 405])
  /\ (admin.Method r = "GET" ->
      exists healthStatus,
        admin.handleHealth a r = [admin.report_Health healthStatus]
        /\ forall name,
             healthStatus !! name = location_health <$> last (locations_named a name))
  /\ (forall backends url,
        admin.handleHealth_backends backends !! url
        = (fun backend => admin.mkHealth (algorithm.Alive backend)
                                         (algorithm.ConnectionCount backend))
            <$> last (List.filter (fun backend => String.eqb (algorithm.URL backend) url)
                                  backends)).
Proof.
  unfold admin.handleHealth, admin.http_MethodGet. split; [|split].
  - intros Hm. by destruct (String.eqb_spec (admin.Method r) "GET").
  - intros ->. simpl. eexists. split; [done|]. intros name.
    by apply report_loops_lookup.
  - intros backends url. unfold admin.handleHealth_backends.
    rewrite (foldl_insert_last algorithm.URL
               (fun backend => admin.mkHealth (algorithm.Alive backend)
                                              (algorithm.ConnectionCount backend))).
    by destruct (last _).
Qed.

Lemma handleHealth_last_location_witness :
  exists healthStatus,
    admin.handleHealth Examples.manager Examples.get_api_backends
    = [admin.report_Health healthStatus]
    /\ (healthStatus !! "backend-api") ≫= (fun health => health !! Examples.b2)
       = Some (admin.mkHealth true 0).
Proof.
  destruct (handleHealth_last_location (H := Examples.plain_url) Examples.manager
              Examples.get_api_backends) as (_ & Hget & Hurl).
  destruct (Hget eq_refl) as (healthStatus & Hcall & Hlookup).
  exists healthStatus. split; [exact Hcall|]. rewrite Hlookup. simpl.
  unfold location_health. rewrite Hurl. reflexivity.
Defined.

(** ** The admin handler of backends, case by case *)

Lemma range_find_alter {A : Type} (f : A -> bool) (g : A -> A) (l : list A) (i : nat) :
  (forall x, f (g x) = f x) -> range_find f (alter g i l) = range_find f l.
Proof.
  intros Hfg. revert i. induction l as [|x l IH]; intros [|i]; simpl; try done.
  - by rewrite Hfg.
  - change (list_alter g i l) with (alter g i l). by rewrite IH.
Qed.

Section HandlerProperties.
Context `{NetURL}.
Variable json_Decode_BackendConfig : string -> error + config.BackendConfig.
Variable json_Decode_URL : string -> error + string.

(** The conditions under which the handler gets to its [switch]. *)
Lemma handleBackends_switch_reached (a : service.Manager) (r : admin.Request)
      (i : nat) (srvc : service.ServiceInfo) (loc : service.LocationInfo) :
  admin.Query_Get r "service_name" <> "" ->
  service.GetServiceByName a (admin.Query_Get r "service_name") = Some (i, srvc) ->
  admin.Query_Get r "path" = "" ->
  service.Locations srvc = [loc] ->
  service.Path loc <> "" ->
  admin.handleBackends json_Decode_BackendConfig json_Decode_URL a r
  = admin.handleBackends_switch json_Decode_BackendConfig json_Decode_URL a i 0 loc r.
Proof.
  intros Hname Hsrvc Hpath Hlocs Hloc. unfold admin.handleBackends.
  destruct (String.eqb_spec (admin.Query_Get r "service_name") "") as [|_]; [done|].
  rewrite Hsrvc, Hpath, Hlocs. simpl.
  destruct (String.eqb_spec (service.Path loc) "") as [|_]; [done|]. done.
Qed.

Lemma GetServiceByName_store_pool (a : service.Manager) (name : string) (i j : nat)
      (srvc : service.ServiceInfo) (s : pool.ServerPool) :
  service.GetServiceByName a name = Some (i, srvc) ->
  service.GetServiceByName (service.store_pool i j s a) name
  = Some (i, service.mkServiceInfo (service.Name srvc)
               (alter (fun loc => service.mkLocationInfo (service.Path loc) s) j
                      (service.Locations srvc))).
Proof.
  unfold service.GetServiceByName, service.store_pool, service.Manager in *. intros Hget.
  rewrite range_find_alter by done.
  destruct (range_find _ a) as [i'|]; [|done]. simpl in *.
  destruct (a !! i') as [srvc'|] eqn:Hi; [|done]. simpl in Hget.
  inversion Hget; subst. by rewrite list_lookup_alter_eq, Hi.
Qed.

Lemma GetBackends_AddBackend (cfg : config.BackendConfig) (s : pool.ServerPool)
      (url : url_URL) :
  Pool_wf s -> url_Parse (config.URL cfg) = Some url ->
  exists s',
    pool.AddBackend cfg s = (None, s')
    /\ pool.GetBackends s' = pool.GetBackends s ++ [Server_of (added_Backend s url cfg)].
Proof.
  intros Hwf Hparse. unfold pool.AddBackend. rewrite Hparse.
  eexists. split; [done|].
  change (pool.mkBackend url "" true _ 0 _ 0 _) with (added_Backend s url cfg).
  rewrite !GetBackends_eq. simpl. rewrite omap_app. f_equal.
  - apply omap_ext_Forall. eapply Forall_impl; [exact Hwf|]. intros p Hp.
    simpl in *. by rewrite lookup_app_l.
  - simpl. by rewrite list_lookup_middle.
Qed.
End HandlerProperties.

(** X24.  [handleBackends], case by case.  The handler gets to its
    [switch] on the method exactly when [service_name] is given, the service
    is found, no [path] is given, and the service has a single location
    whose own path is not empty; that location is then the one operated
    on.  In every other case it writes one error, with status 400 or 404,
    calls no pool and leaves the manager as it is; so a service whose only
    location has the empty path cannot be administered. *)
Theorem handleBackends_cases `{NetURL}
        (json_Decode_BackendConfig : string -> error + config.BackendConfig)
        (json_Decode_URL : string -> error + string)
        (a : service.Manager) (r : admin.Request) :
  let serviceName := admin.Query_Get r "service_name" in
  let serviceLocation := admin.Query_Get r "path" in
  let outcome := admin.handleBackends json_Decode_BackendConfig json_Decode_URL a r in
  (exists i srvc loc,
      serviceName <> ""
      /\ service.GetServiceByName a serviceName = Some (i, srvc)
      /\ serviceLocation = ""
      /\ service.Locations srvc = [loc]
      /\ service.Path loc <> ""
      /\ outcome = admin.handleBackends_switch json_Decode_BackendConfig json_Decode_URL
                     a i 0 loc r)
  \/ ((forall i srvc loc,
         service.GetServiceByName a serviceName = Some (i, srvc) ->
         service.Locations srvc = [loc] ->
         serviceName = "" \/ serviceLocation <> "" \/ service.Path loc = "")
      /\ admin.Manager' outcome = a
      /\ admin.Calls outcome = []
      /\ exists msg code,
           admin.Writes outcome = [admin.http_Error msg code]
           /\ (code = 400 \/ code = 404)).
Proof.
  intros serviceName serviceLocation outcome. subst outcome.
  unfold admin.handleBackends. fold serviceName. fold serviceLocation.
  destruct (String.eqb_spec serviceName "") as [Hname|Hname].
  { right. split; [by left|]. simpl. repeat split; eauto. }
  destruct (service.GetServiceByName a serviceName) as [[i srvc]|] eqn:Hsrvc.
  2:{ right. split; [done|]. simpl. repeat split; eauto. }
  destruct (String.eqb_spec serviceLocation "") as [Hpath|Hpath].
  2:{ right. rewrite andb_false_r. split; [by right; left|]. simpl. repeat split; eauto. }
  rewrite andb_true_r.
  destruct (range_find _ (service.Locations srvc)) as [j|] eqn:Hfind.
  { right. rewrite bool_decide_eq_false_2 by done. split; [|simpl; repeat split; eauto].
    intros i' srvc' loc [= <- <-] Hlocs. right; right.
    rewrite Hlocs in Hfind. simpl in Hfind.
    destruct (String.eqb_spec (service.Path loc) serviceLocation); [congruence|done]. }
  rewrite bool_decide_eq_true_2 by done.
  destruct (service.Locations srvc) as [|loc [|loc' locs]] eqn:Hlocs; simpl.
  - right. split; [intros i' srvc' loc' [= <- <-] Hl; congruence|]. repeat split; eauto.
  - left. exists i, srvc, loc. repeat split; try done.
    simpl in Hfind. destruct (String.eqb_spec (service.Path loc) serviceLocation);
      [done|congruence].
  - right. split; [intros i' srvc' loc0 [= <- <-] Hl; congruence|]. repeat split; eauto.
Qed.

Lemma handleBackends_cases_witness :
  admin.handleBackends (fun _ => inl (errors_New "EOF")) (fun _ => inl (errors_New "EOF"))
    Examples.manager (admin.mkRequest "GET" (Examples.query "backend-api" "") "")
  = admin.mkOutcome Examples.manager
      [admin.json_Encode (pool.GetBackends (Examples.three_pool 0))]
      [admin.CallGetBackends].
Proof.
  destruct (handleBackends_cases (H := Examples.plain_url)
              (fun _ => inl (errors_New "EOF")) (fun _ => inl (errors_New "EOF"))
              Examples.manager (admin.mkRequest "GET" (Examples.query "backend-api" "") ""))
    as [(i & srvc & loc & _ & Hsrvc & _ & Hlocs & _ & Hout)|(Hnot & _)].
  - rewrite Hout. vm_compute in Hsrvc. inversion Hsrvc; subst.
    simpl in Hlocs. inversion Hlocs; subst. reflexivity.
  - exfalso.
    destruct (Hnot 0%nat (service.mkServiceInfo "backend-api"
                            [service.mkLocationInfo "/api/" (Examples.three_pool 0)])
                (service.mkLocationInfo "/api/" (Examples.three_pool 0)) eq_refl eq_refl)
      as [Hn|[Hn|Hn]]; [discriminate Hn|by apply Hn|discriminate Hn].
Defined.

(** X25.  A backend posted to the admin API is listed by the next GET.
    For a service the handler can administer (found by name, no [path]
    given, a single location with a non-empty path), a POST whose body
    decodes to a configuration with a URL that parses answers 201 and
    stores the enlarged pool in the manager; a GET on the resulting manager
    then encodes the previous snapshot followed by the new backend. *)
Theorem handleBackends_POST_GET `{NetURL}
        (json_Decode_BackendConfig : string -> error + config.BackendConfig)
        (json_Decode_URL : string -> error + string)
        (a : service.Manager) (post get : admin.Request)
        (i : nat) (srvc : service.ServiceInfo) (loc : service.LocationInfo)
        (cfg : config.BackendConfig) (url : url_URL) :
  admin.Query_Get post "service_name" <> "" ->
  admin.Query_Get get "service_name" = admin.Query_Get post "service_name" ->
  admin.Query_Get post "path" = "" -> admin.Query_Get get "path" = "" ->
  service.GetServiceByName a (admin.Query_Get post "service_name") = Some (i, srvc) ->
  service.Locations srvc = [loc] -> service.Path loc <> "" ->
  Pool_wf (service.ServerPool loc) ->
  admin.Method post = "POST" -> admin.Method get = "GET" ->
  json_Decode_BackendConfig (admin.Body post) = inr cfg ->
  url_Parse (config.URL cfg) = Some url ->
  exists a',
    admin.handleBackends json_Decode_BackendConfig json_Decode_URL a post
    = admin.mkOutcome a' [admin.WriteHeader 201] [admin.CallAddBackend cfg]
    /\ admin.handleBackends json_Decode_BackendConfig json_Decode_URL a' get
       = admin.mkOutcome a'
           [admin.json_Encode
              (pool.GetBackends (service.ServerPool loc)
               ++ [Server_of (added_Backend (service.ServerPool loc) url cfg)])]
           [admin.CallGetBackends].
Proof.
  intros Hname Hname' Hpath Hpath' Hsrvc Hlocs Hloc Hwf Hpost Hget Hbody Hparse.
  destruct (GetBackends_AddBackend cfg (service.ServerPool loc) url Hwf Hparse)
    as (s' & Hadd & Hsnap).
  exists (service.store_pool i 0 s' a). split.
  - rewrite (handleBackends_switch_reached _ _ a post i srvc loc) by done.
    unfold admin.handleBackends_switch. rewrite Hpost. simpl.
    by rewrite Hbody, Hadd.
  - rewrite (handleBackends_switch_reached _ _ _ get i
               (service.mkServiceInfo (service.Name srvc)
                  [service.mkLocationInfo (service.Path loc) s'])
               (service.mkLocationInfo (service.Path loc) s')); try done.
    + unfold admin.handleBackends_switch. rewrite Hget. simpl. by rewrite Hsnap.
    + by rewrite Hname'.
    + rewrite Hname'.
      rewrite (GetServiceByName_store_pool a _ i 0 srvc s' Hsrvc). by rewrite Hlocs.
Qed.

Lemma handleBackends_POST_GET_witness :
  exists a',
    admin.handleBackends
      (fun _ => inr (config.mkBackendConfig "http://b4:8080" 2 0))
      (fun _ => inl (errors_New "EOF"))
      Examples.manager (admin.mkRequest "POST" (Examples.query "backend-api" "") "{}")
    = admin.mkOutcome a' [admin.WriteHeader 201]
        [admin.CallAddBackend (config.mkBackendConfig "http://b4:8080" 2 0)]
    /\ admin.Writes
         (admin.handleBackends
            (fun _ => inr (config.mkBackendConfig "http://b4:8080" 2 0))
            (fun _ => inl (errors_New "EOF"))
            a' (admin.mkRequest "GET" (Examples.query "backend-api" "") ""))
       = [admin.json_Encode
            (pool.GetBackends (Examples.three_pool 0)
             ++ [algorithm.mkServer "http://b4:8080" 2 0 0 1000 true])].
Proof.
  destruct (handleBackends_POST_GET (H := Examples.plain_url)
              (fun _ => inr (config.mkBackendConfig "http://b4:8080" 2 0))
              (fun _ => inl (errors_New "EOF"))
              Examples.manager
              (admin.mkRequest "POST" (Examples.query "backend-api" "") "{}")
              (admin.mkRequest "GET" (Examples.query "backend-api" "") "")
              0 (service.mkServiceInfo "backend-api"
                   [service.mkLocationInfo "/api/" (Examples.three_pool 0)])
              (service.mkLocationInfo "/api/" (Examples.three_pool 0))
              (config.mkBackendConfig "http://b4:8080" 2 0) "http://b4:8080")
    as (a' & Hpost & Hget); try reflexivity; try discriminate.
  - repeat constructor; simpl; lia.
  - exists a'. split; [exact Hpost|]. rewrite Hget. reflexivity.
Defined.

(** ** The security headers *)

Lemma Middleware_headers_lookup (canonical : string -> string)
      (s : middleware.ServerSecurity) (h : middleware.Header) (k : string) :
  middleware.Middleware_headers canonical s h !! k
  = match security_header canonical s k with
    | Some v => Some v
    | None => h !! k
    end.
Proof.
  unfold middleware.Middleware_headers, middleware.Header_Set, security_header,
    middleware.Header.
  destruct (middleware.XSSProtection s), (middleware.ContentTypeOptions s),
    (negb (String.eqb (middleware.FrameOptions s) "")), (middleware.HSTS s);
    simpl; rewrite ?lookup_insert;
    repeat case_decide; repeat case_bool_decide; simpl; congruence.
Qed.

(** X26.  The security middleware only adds to the response headers.  It
    calls [next] once, with the request it got and the rest of the response
    writer untouched; the headers [next] sees are those it was given plus
    the enabled security headers: a header under another key is kept as it
    is, no header is removed, with every switch off the headers are
    unchanged, and running the middleware twice gives the same headers as
    running it once. *)
Theorem Middleware_adds_headers (canonical : string -> string)
        (s : middleware.ServerSecurity) (h : middleware.Header) :
  let h' := middleware.Middleware_headers canonical s h in
  (forall (W Rq : Type) (next : middleware.Header * W -> Rq -> middleware.Header * W)
          (w : W) (r : Rq),
      middleware.Middleware canonical s next (h, w) r = next (h', w) r)
  /\ (forall k,
        k ∉ [canonical "Strict-Transport-Security"; canonical "X-Frame-Options";
             canonical "X-Content-Type-Options"; canonical "X-XSS-Protection"] ->
        h' !! k = h !! k)
  /\ (forall k, is_Some (h !! k) -> is_Some (h' !! k))
  /\ (middleware.HSTS s = false -> middleware.FrameOptions s = "" ->
      middleware.ContentTypeOptions s = false -> middleware.XSSProtection s = false ->
      h' = h)
  /\ middleware.Middleware_headers canonical s h' = h'.
Proof.
  intros h'. subst h'. split; [done|]. split; [|split; [|split]].
  - intros k Hk. rewrite Middleware_headers_lookup. unfold security_header.
    rewrite !not_elem_of_cons in Hk. destruct Hk as (? & ? & ? & ? & _).
    rewrite !bool_decide_eq_false_2, !andb_false_r by done. done.
  - intros k Hsome. rewrite Middleware_headers_lookup.
    by destruct (security_header canonical s k).
  - intros Hh Hf Hc Hx. unfold middleware.Middleware_headers. by rewrite Hh, Hf, Hc, Hx.
  - apply map_eq. intros k. rewrite !Middleware_headers_lookup.
    by destruct (security_header canonical s k).
Qed.

Lemma Middleware_adds_headers_witness :
  middleware.Middleware_headers (fun k => k)
    (middleware.mkServerSecurity true 31536000 true false "DENY" true false)
    ({["Content-Type" := ["text/plain"]]} : middleware.Header)
  !! "Strict-Transport-Security"
  = Some ["max-age=31536000; includeSubDomains"]
  /\ middleware.Middleware_headers (fun k => k)
       (middleware.mkServerSecurity true 31536000 true false "DENY" true false)
       ({["Content-Type" := ["text/plain"]]} : middleware.Header)
     !! "Content-Type"
     = Some ["text/plain"].
Proof.
  destruct (Middleware_adds_headers (fun k => k)
              (middleware.mkServerSecurity true 31536000 true false "DENY" true false)
              ({["Content-Type" := ["text/plain"]]} : middleware.Header))
    as (_ & Hframe & _).
  split; [vm_compute; reflexivity|].
  rewrite Hframe; [reflexivity|].
  rewrite !not_elem_of_cons. repeat split; try discriminate. apply not_elem_of_nil.
Defined.
